(** * alx-polly: security utilities, server actions and the session gate

    A shallow embedding of the TypeScript sources

      - app/lib/utils/security.ts   (sanitizeInput, validateEmail, checkRateLimit)
      - app/lib/utils/csrf.ts       (validateCsrfToken, csrfProtection)
      - app/lib/actions/csrf-actions.ts, auth-actions.ts, poll-actions.ts
      - lib/supabase/middleware.ts, middleware.ts

    Conventions.
      - A JavaScript string is a [string]: a sequence of code units, restricted
        to the code units below 256.  [String.length], the regular expression
        classes and the UTF-8 encoding of [Buffer_from] are exact on them.
      - A JavaScript value that may be [null] or [undefined] is an [option].
      - A JavaScript number that holds an integer is a [Z].
      - The server actions run in a state-and-exception monad over a [World]
        that holds the process state (rate-limit table, clock), the request
        state (cookies) and the two external services (identity, data),
        together with a log of every call made to the outside. *)

From Stdlib Require Import ZArith Lia Bool Ascii String List.
From stdpp Require Import base option list strings pretty gmap.
Import ListNotations.

Local Open Scope string_scope.
Local Open Scope Z_scope.

(** ** JavaScript strings *)

Module Js.

(** [!v] for a value typed [string] that may be [null] at run time. *)
Definition falsy (v : option string) : bool :=
  match v with
  | None => true
  | Some s => String.eqb s ""
  end.

(** The double quote character, code 34. *)
Definition dquote : ascii := ascii_of_nat 34.

(** [s.replace(/c/g, r)] for a pattern that is one literal character. *)
Fixpoint replaceAll (c : ascii) (r : string) (s : string) : string :=
  match s with
  | EmptyString => EmptyString
  | String a rest =>
      if Ascii.eqb a c then r +:+ replaceAll c r rest
      else String a (replaceAll c r rest)
  end.

(** [s.startsWith(p)]. *)
Definition startsWith (p s : string) : bool := String.prefix p s.

(** Number of occurrences of a character. *)
Fixpoint occurrences (c : ascii) (s : string) : nat :=
  match s with
  | EmptyString => O
  | String a rest => ((if Ascii.eqb a c then 1 else 0) + occurrences c rest)%nat
  end.

Definition contains (c : ascii) (s : string) : bool :=
  negb (Nat.eqb (occurrences c s) 0).

(** [c.toLowerCase()] on one code unit below 256: A-Z, and the Latin-1
    capitals U+00C0..U+00DE except the multiplication sign U+00D7. *)
Definition lower_unit (a : ascii) : ascii :=
  let n := nat_of_ascii a in
  if ((65 <=? n) && (n <=? 90))%nat then ascii_of_nat (n + 32)
  else if ((192 <=? n) && (n <=? 222) && negb (n =? 215))%nat
       then ascii_of_nat (n + 32)
  else a.

Fixpoint toLowerCase (s : string) : string :=
  match s with
  | EmptyString => EmptyString
  | String a rest => String (lower_unit a) (toLowerCase rest)
  end.

End Js.

(** ** app/lib/utils/security.ts *)

(** [sanitizeInput]: the empty string for a falsy input, otherwise five
    global replacements applied one after the other. *)
Definition sanitizeInput (input : option string) : string :=
  match input with
  | None => ""
  | Some s =>
      if Js.falsy input then ""
      else
        Js.replaceAll "'" "&#039;"
          (Js.replaceAll Js.dquote "&quot;"
             (Js.replaceAll ">" "&gt;"
                (Js.replaceAll "<" "&lt;"
                   (Js.replaceAll "&" "&amp;" s))))
  end.

(** Regular expressions, matched by derivatives.  Only what the two
    patterns of the sources need: classes, sequence, alternative, star. *)
Module Regex.

Inductive regex : Type :=
| Void                                  (* matches nothing *)
| Eps                                   (* matches the empty string *)
| Class (p : ascii -> bool)             (* one code unit satisfying p *)
| Seq (r1 r2 : regex)
| Alt (r1 r2 : regex)
| Star (r : regex).

Definition Plus (r : regex) : regex := Seq r (Star r).

Definition Chr (c : ascii) : regex := Class (Ascii.eqb c).

Fixpoint Lit (s : string) : regex :=
  match s with
  | EmptyString => Eps
  | String a rest => Seq (Chr a) (Lit rest)
  end.

Fixpoint Alts (rs : list regex) : regex :=
  match rs with
  | [] => Void
  | r :: rest => Alt r (Alts rest)
  end.

(** [\s] on code units below 256: TAB, LF, VT, FF, CR, SPACE, NBSP. *)
Definition is_space (a : ascii) : bool :=
  let n := nat_of_ascii a in
  ((9 <=? n) && (n <=? 13) || (n =? 32) || (n =? 160))%nat.

(** [.]: any code unit but the line terminators LF and CR. *)
Definition is_dot (a : ascii) : bool :=
  let n := nat_of_ascii a in
  negb ((n =? 10) || (n =? 13))%nat.

Definition Dot : regex := Class is_dot.

Fixpoint nullable (r : regex) : bool :=
  match r with
  | Void => false
  | Eps => true
  | Class _ => false
  | Seq r1 r2 => nullable r1 && nullable r2
  | Alt r1 r2 => nullable r1 || nullable r2
  | Star _ => true
  end.

Fixpoint deriv (a : ascii) (r : regex) : regex :=
  match r with
  | Void => Void
  | Eps => Void
  | Class p => if p a then Eps else Void
  | Seq r1 r2 =>
      if nullable r1 then Alt (Seq (deriv a r1) r2) (deriv a r2)
      else Seq (deriv a r1) r2
  | Alt r1 r2 => Alt (deriv a r1) (deriv a r2)
  | Star r1 => Seq (deriv a r1) (Star r1)
  end.

(** [matches r s]: the whole of [s] is in the language of [r], which is
    [/^r$/.test(s)]. *)
Fixpoint matches (r : regex) (s : string) : bool :=
  match s with
  | EmptyString => nullable r
  | String a rest => matches (deriv a r) rest
  end.

End Regex.

(** [/^[^\s@]+@[^\s@]+\.[^\s@]+$/] *)
Definition emailRegex : Regex.regex :=
  let unit := Regex.Class (fun a => negb (Regex.is_space a || Ascii.eqb a "@")) in
  Regex.Seq (Regex.Plus unit)
    (Regex.Seq (Regex.Chr "@")
       (Regex.Seq (Regex.Plus unit)
          (Regex.Seq (Regex.Chr ".") (Regex.Plus unit)))).

Definition validateEmail (email : option string) : string :=
  match email with
  | None => ""
  | Some s =>
      if Js.falsy email then ""
      else if negb (Regex.matches emailRegex s) then ""
      else sanitizeInput email
  end.

(** One entry of the [rateLimits] table. *)
Record RateEntry : Type := { count : Z; resetTime : Z }.

(** [rateLimits] is a plain object, so a key that names a property of
    [Object.prototype] is found on the prototype chain: [rateLimits[key]] is
    then a truthy object that has no [resetTime], the table itself is never
    written, [count++] leaves NaN on the inherited object and the final
    comparison is false. *)
Definition Object_prototype_names : list string :=
  [ "constructor"; "__defineGetter__"; "__defineSetter__"; "hasOwnProperty";
    "__lookupGetter__"; "__lookupSetter__"; "isPrototypeOf";
    "propertyIsEnumerable"; "toString"; "valueOf"; "__proto__";
    "toLocaleString" ].

Definition inherited (key : string) : bool :=
  existsb (String.eqb key) Object_prototype_names.

(** [checkRateLimit(key, maxAttempts, windowMs)], with the value [now] of
    [Date.now()] and the module-level table passed explicitly.  Returns the
    verdict and the table after the call. *)
Definition checkRateLimit (now : Z) (key : string) (maxAttempts windowMs : Z)
    (rateLimits : gmap string RateEntry) : bool * gmap string RateEntry :=
  if inherited key then (false, rateLimits)
  else
    (* Clear expired entries *)
    let cleared :=
      match rateLimits !! key with
      | None => <[key := {| count := 0; resetTime := now + windowMs |}]> rateLimits
      | Some e =>
          if resetTime e <? now
          then <[key := {| count := 0; resetTime := now + windowMs |}]> rateLimits
          else rateLimits
      end in
    (* Increment counter *)
    let counted :=
      alter (fun e => {| count := count e + 1; resetTime := resetTime e |}) key cleared in
    (* Check if limit exceeded *)
    (match counted !! key with
     | Some e => count e <=? maxAttempts
     | None => false
     end, counted).

(** ** The world of a server action *)

Record User : Type := { u_id : string }.

(** A row of [polls]. *)
Record Poll : Type := {
  p_id : string;
  p_user_id : string;
  p_question : string;
  p_options : list string;
  p_created_at : Z
}.

(** A row of [votes]. *)
Record Vote : Type := {
  v_poll_id : string;
  v_user_id : string;
  v_option_index : Z
}.

(** Every call that leaves the action: identity service, data service,
    cookie store, [crypto] and the framework cache. *)
Inductive Call : Type :=
| Auth_getUser
| Auth_signInWithPassword (email : string) (password : option string)
| Auth_signUp (email : string) (password : option string) (name : string)
| Auth_signOut
| Polls_insert (user_id question : string) (options : list string)
| Polls_select_by_user (user_id : string)
| Polls_select_by_id (id : string)
| Polls_select_owner (id : string)
| Polls_delete (id : string)
| Polls_update (question : string) (options : list string) (id user_id : string)
| Votes_select (poll_id user_id : string)
| Votes_insert (poll_id user_id : string) (option_index : Z)
| Cookies_get (name : string)
| Cookies_set (name value : string)
| Crypto_randomBytes (n : Z)
| Crypto_timingSafeEqual (a b : list Z)
| RevalidatePath (path : string).

(** The identity service as the actions see it: the answer to [getUser]
    ([data.user] and [error]) and the verdicts on credentials. *)
Record Identity : Type := {
  getUser_user : option User;
  getUser_error : option string;
  signIn_error : string -> option string -> option string;
  signUp_error : string -> option string -> string -> option string;
  signOut_error : option string
}.

Record World : Type := {
  clock : Z;                               (* Date.now() *)
  rateLimits : gmap string RateEntry;      (* module-level table *)
  csrf_cookie : option string;             (* cookies().get('csrf_token')?.value *)
  entropy : nat -> string;                 (* randomBytes(32).toString('hex'), per draw *)
  identity : Identity;
  db_faults : list (option string);        (* per data-service call: its failure, if any *)
  db_ids : nat -> string;                  (* identifier the data service assigns, per call *)
  polls : list Poll;
  votes : list Vote;
  calls : list Call                        (* log of outside calls, oldest first *)
}.

Definition set_rateLimits (r : gmap string RateEntry) (w : World) : World :=
  {| clock := clock w; rateLimits := r; csrf_cookie := csrf_cookie w;
     entropy := entropy w; identity := identity w; db_faults := db_faults w;
     db_ids := db_ids w; polls := polls w; votes := votes w; calls := calls w |}.

Definition set_csrf_cookie (c : option string) (w : World) : World :=
  {| clock := clock w; rateLimits := rateLimits w; csrf_cookie := c;
     entropy := entropy w; identity := identity w; db_faults := db_faults w;
     db_ids := db_ids w; polls := polls w; votes := votes w; calls := calls w |}.

Definition set_db_faults (f : list (option string)) (w : World) : World :=
  {| clock := clock w; rateLimits := rateLimits w; csrf_cookie := csrf_cookie w;
     entropy := entropy w; identity := identity w; db_faults := f;
     db_ids := db_ids w; polls := polls w; votes := votes w; calls := calls w |}.

Definition set_polls (p : list Poll) (w : World) : World :=
  {| clock := clock w; rateLimits := rateLimits w; csrf_cookie := csrf_cookie w;
     entropy := entropy w; identity := identity w; db_faults := db_faults w;
     db_ids := db_ids w; polls := p; votes := votes w; calls := calls w |}.

Definition set_votes (v : list Vote) (w : World) : World :=
  {| clock := clock w; rateLimits := rateLimits w; csrf_cookie := csrf_cookie w;
     entropy := entropy w; identity := identity w; db_faults := db_faults w;
     db_ids := db_ids w; polls := polls w; votes := v; calls := calls w |}.

Definition set_calls (c : list Call) (w : World) : World :=
  {| clock := clock w; rateLimits := rateLimits w; csrf_cookie := csrf_cookie w;
     entropy := entropy w; identity := identity w; db_faults := db_faults w;
     db_ids := db_ids w; polls := polls w; votes := votes w; calls := c |}.

(** ** The monad of a server action: state and exceptions *)

Inductive Exn : Type :=
| TypeError (message : string)
| RangeError (message : string).

Inductive Outcome (A : Type) : Type :=
| Returned (a : A)
| Thrown (e : Exn).
Arguments Returned {A} a.
Arguments Thrown {A} e.

Definition M (A : Type) : Type := World -> Outcome A * World.

Definition ret {A} (a : A) : M A := fun w => (Returned a, w).

Definition throw {A} (e : Exn) : M A := fun w => (Thrown e, w).

Definition bind {A B} (m : M A) (k : A -> M B) : M B :=
  fun w =>
    match m w with
    | (Returned a, w') => k a w'
    | (Thrown e, w') => (Thrown e, w')
    end.

(** [try { m } catch (error) { h }] *)
Definition try_catch {A} (m : M A) (h : Exn -> M A) : M A :=
  fun w =>
    match m w with
    | (Returned a, w') => (Returned a, w')
    | (Thrown e, w') => h e w'
    end.

Notation "'let*' x ':=' m 'in' k" := (bind m (fun x => k))
  (at level 10, x pattern, m at level 100, k at level 200).
Notation "'do' m 'then' k" := (bind m (fun _ => k))
  (at level 10, m at level 100, k at level 200).

Definition outside (c : Call) : M unit :=
  fun w => (Returned tt, set_calls (calls w ++ [c]) w).

(** The result object of an action: [{ error }], with the payload, if any,
    in [data]. *)
Record Result (D : Type) : Type := { data : D; error : option string }.
Arguments data {D} r.
Arguments error {D} r.

Definition fail_with (msg : string) : M (Result unit) :=
  ret {| data := tt; error := Some msg |}.

Definition succeed : M (Result unit) :=
  ret {| data := tt; error := None |}.

(** *** Process state: the rate limiter inside an action *)

Definition checkRateLimitM (key : string) (maxAttempts windowMs : Z) : M bool :=
  fun w =>
    let '(ok, table) := checkRateLimit (clock w) key maxAttempts windowMs (rateLimits w) in
    (Returned ok, set_rateLimits table w).

(** *** Form data: the entries in order, each a string (no [File] entry) *)

Definition FormData : Type := list (string * string).

Definition fd_get (name : string) (fd : FormData) : option string :=
  snd <$> List.find (fun e => String.eqb (fst e) name) fd.

Definition fd_has (name : string) (fd : FormData) : bool :=
  existsb (fun e => String.eqb (fst e) name) fd.

Definition fd_getAll (name : string) (fd : FormData) : list string :=
  map snd (List.filter (fun e => String.eqb (fst e) name) fd).

(** *** [crypto] and [Buffer] *)

(** UTF-8 encoding of one code unit below 256. *)
Definition utf8_unit (a : ascii) : list Z :=
  let c := Z.of_nat (nat_of_ascii a) in
  if c <? 128 then [c]
  else [Z.lor 192 (Z.shiftr c 6); Z.lor 128 (Z.land c 63)].

(** [Buffer.from(s)]: the bytes of the UTF-8 encoding of [s]. *)
Fixpoint Buffer_from (s : string) : list Z :=
  match s with
  | EmptyString => []
  | String a rest => utf8_unit a ++ Buffer_from rest
  end.

(** The comparison loop of [crypto.timingSafeEqual]: every pair of bytes is
    visited and the differences are accumulated; there is no early exit. *)
Definition ct_equal (a b : list Z) : bool :=
  fold_left (fun acc xy => Z.lor acc (Z.lxor (fst xy) (snd xy))) (combine a b) 0 =? 0.

(** [crypto.timingSafeEqual(a, b)]: throws a RangeError when the byte
    lengths differ. *)
Definition timingSafeEqual (a b : list Z) : M bool :=
  do outside (Crypto_timingSafeEqual a b) then
  if (length a =? length b)%nat then ret (ct_equal a b)
  else throw (RangeError "Input buffers must have the same byte length").

(** [crypto.randomBytes(32).toString('hex')] *)
Definition randomHex32 : M string :=
  fun w => (Returned (entropy w (length (calls w))),
            set_calls (calls w ++ [Crypto_randomBytes 32]) w).

(** ** app/lib/utils/csrf.ts *)

Definition generateCsrfToken : M string := randomHex32.

Definition setCsrfCookie (token : string) : M unit :=
  do outside (Cookies_set "csrf_token" token) then
  fun w => (Returned tt, set_csrf_cookie (Some token) w).

Definition getCsrfCookie : M (option string) :=
  do outside (Cookies_get "csrf_token") then
  fun w => (Returned (csrf_cookie w), w).

Definition validateCsrfToken (token : option string) : M bool :=
  let* storedToken := getCsrfCookie in
  match storedToken, token with
  | Some stored, Some submitted =>
      if Js.falsy storedToken || Js.falsy token then ret false
      else
        try_catch
          (* Use timing-safe comparison to prevent timing attacks *)
          (timingSafeEqual (Buffer_from submitted) (Buffer_from stored))
          (fun _ => ret false)
  | _, _ => ret false
  end.

Definition csrfProtection (formData : FormData) : M bool :=
  validateCsrfToken (fd_get "csrf_token" formData).

(** ** app/lib/actions/csrf-actions.ts *)

Definition generateAndSetCsrfToken : M string :=
  let* token := randomHex32 in
  do outside (Cookies_set "csrf_token" token) then
  fun w => (Returned token, set_csrf_cookie (Some token) w).

Definition getCsrfToken : M (option string) :=
  do outside (Cookies_get "csrf_token") then
  fun w => (Returned (csrf_cookie w), w).

Definition validateToken (token : option string) : M bool :=
  let* storedToken := getCsrfToken in
  match storedToken, token with
  | Some stored, Some submitted =>
      if Js.falsy storedToken || Js.falsy token then ret false
      else
        try_catch
          (* Use timing-safe comparison to prevent timing attacks *)
          (timingSafeEqual (Buffer_from submitted) (Buffer_from stored))
          (fun _ => ret false)
  | _, _ => ret false
  end.

(** ** The identity service and the data service *)

(** What a service call resolves to: [{ data, error }]. *)
Record Reply (D : Type) : Type := { reply_data : D; reply_error : option string }.
Arguments reply_data {D} r.
Arguments reply_error {D} r.

Definition auth_getUser : M (Reply (option User)) :=
  do outside Auth_getUser then
  fun w => (Returned {| reply_data := getUser_user (identity w);
                        reply_error := getUser_error (identity w) |}, w).

Definition auth_signInWithPassword (email : string) (password : option string)
  : M (option string) :=
  do outside (Auth_signInWithPassword email password) then
  fun w => (Returned (signIn_error (identity w) email password), w).

Definition auth_signUp (email : string) (password : option string) (name : string)
  : M (option string) :=
  do outside (Auth_signUp email password name) then
  fun w => (Returned (signUp_error (identity w) email password name), w).

Definition auth_signOut : M (option string) :=
  do outside Auth_signOut then
  fun w => (Returned (signOut_error (identity w)), w).

(** The failure, if any, that the data service answers the next call with. *)
Definition db_fault : M (option string) :=
  fun w =>
    match db_faults w with
    | [] => (Returned None, w)
    | f :: rest => (Returned f, set_db_faults rest w)
    end.

(** The error of [.single()] when the rows are not exactly one. *)
Definition PGRST116 : string :=
  "JSON object requested, multiple (or no) rows returned".

Definition single {A} (rows : list A) : Reply (option A) :=
  match rows with
  | [row] => {| reply_data := Some row; reply_error := None |}
  | _ => {| reply_data := None; reply_error := Some PGRST116 |}
  end.

Definition has_id (id : string) (p : Poll) : bool := String.eqb (p_id p) id.

Definition owned_by (user_id : string) (p : Poll) : bool :=
  String.eqb (p_user_id p) user_id.

Definition vote_of (poll_id user_id : string) (v : Vote) : bool :=
  String.eqb (v_poll_id v) poll_id && String.eqb (v_user_id v) user_id.

(** [from("polls").insert([{ user_id, question, options }])] *)
Definition polls_insert (user_id question : string) (options : list string)
  : M (option string) :=
  do outside (Polls_insert user_id question options) then
  let* fault := db_fault in
  match fault with
  | Some e => ret (Some e)
  | None =>
      fun w =>
        let row := {| p_id := db_ids w (length (calls w)); p_user_id := user_id;
                      p_question := question; p_options := options;
                      p_created_at := clock w |} in
        (Returned None, set_polls (polls w ++ [row]) w)
  end.

(** Rows by [created_at], newest first. *)
Fixpoint insert_desc (p : Poll) (l : list Poll) : list Poll :=
  match l with
  | [] => [p]
  | q :: rest =>
      if p_created_at q <? p_created_at p then p :: q :: rest
      else q :: insert_desc p rest
  end.

Definition order_created_at_desc (l : list Poll) : list Poll :=
  fold_right insert_desc [] l.

(** [from("polls").select("*").eq("user_id", id).order("created_at", ...)] *)
Definition polls_select_by_user (user_id : string) : M (Reply (option (list Poll))) :=
  do outside (Polls_select_by_user user_id) then
  let* fault := db_fault in
  match fault with
  | Some e => ret {| reply_data := None; reply_error := Some e |}
  | None =>
      fun w =>
        (Returned {| reply_data :=
                       Some (order_created_at_desc (List.filter (owned_by user_id) (polls w)));
                     reply_error := None |}, w)
  end.

(** [from("polls").select("*").eq("id", id).single()] *)
Definition polls_select_by_id (id : string) : M (Reply (option Poll)) :=
  do outside (Polls_select_by_id id) then
  let* fault := db_fault in
  match fault with
  | Some e => ret {| reply_data := None; reply_error := Some e |}
  | None => fun w => (Returned (single (List.filter (has_id id) (polls w))), w)
  end.

(** [from("polls").select("user_id").eq("id", id).single()] *)
Definition polls_select_owner (id : string) : M (Reply (option string)) :=
  do outside (Polls_select_owner id) then
  let* fault := db_fault in
  match fault with
  | Some e => ret {| reply_data := None; reply_error := Some e |}
  | None =>
      fun w => (Returned (single (map p_user_id (List.filter (has_id id) (polls w)))), w)
  end.

(** [from("polls").delete().eq("id", id)] *)
Definition polls_delete (id : string) : M (option string) :=
  do outside (Polls_delete id) then
  let* fault := db_fault in
  match fault with
  | Some e => ret (Some e)
  | None =>
      fun w =>
        (Returned None, set_polls (List.filter (fun p => negb (has_id id p)) (polls w)) w)
  end.

(** [from("polls").update({ question, options }).eq("id", id).eq("user_id", uid)] *)
Definition polls_update (question : string) (options : list string)
    (id user_id : string) : M (option string) :=
  do outside (Polls_update question options id user_id) then
  let* fault := db_fault in
  match fault with
  | Some e => ret (Some e)
  | None =>
      fun w =>
        let upd p :=
          if has_id id p && owned_by user_id p
          then {| p_id := p_id p; p_user_id := p_user_id p; p_question := question;
                  p_options := options; p_created_at := p_created_at p |}
          else p in
        (Returned None, set_polls (map upd (polls w)) w)
  end.

(** [from("votes").select("*").eq("poll_id", pid).eq("user_id", uid)] *)
Definition votes_select (poll_id user_id : string) : M (Reply (option (list Vote))) :=
  do outside (Votes_select poll_id user_id) then
  let* fault := db_fault in
  match fault with
  | Some e => ret {| reply_data := None; reply_error := Some e |}
  | None =>
      fun w =>
        (Returned {| reply_data := Some (List.filter (vote_of poll_id user_id) (votes w));
                     reply_error := None |}, w)
  end.

(** [from("votes").insert([{ poll_id, user_id, option_index }])] *)
Definition votes_insert (poll_id user_id : string) (option_index : Z)
  : M (option string) :=
  do outside (Votes_insert poll_id user_id option_index) then
  let* fault := db_fault in
  match fault with
  | Some e => ret (Some e)
  | None =>
      fun w =>
        let row := {| v_poll_id := poll_id; v_user_id := user_id;
                      v_option_index := option_index |} in
        (Returned None, set_votes (votes w ++ [row]) w)
  end.

Definition revalidatePath (path : string) : M unit := outside (RevalidatePath path).

(** ** app/lib/actions/auth-actions.ts *)

Record LoginFormData : Type := { l_email : string; l_password : string }.

Record RegisterFormData : Type := {
  r_name : string; r_email : string; r_password : string
}.

(** The local [data] of [login] and [register]: a field read off a
    [FormData] is [null] when the form has no such entry. *)
Record Credentials : Type := {
  name : option string;
  email : option string;
  password : option string
}.

Definition CSRF_REJECTED : string :=
  "Invalid or expired form submission. Please try again.".

Definition login (formData : FormData + LoginFormData) : M (Result unit) :=
  let data :=
    match formData with
    | inl fd => {| name := None; email := fd_get "email" fd;
                   password := fd_get "password" fd |}
    | inr p => {| name := None; email := Some (l_email p);
                  password := Some (l_password p) |}
    end in
  let after_csrf : M (Result unit) :=
    (* Apply rate limiting - 5 attempts per minute by IP (or email in this case) *)
    match email data with
    | None => throw (TypeError "Cannot read properties of null (reading 'toLowerCase')")
    | Some e =>
        let emailKey := "login_" +:+ Js.toLowerCase e in
        let* allowed := checkRateLimitM emailKey 5 60000 in
        if negb allowed then fail_with "Too many login attempts. Please try again later."
        else
          (* Sanitize and validate inputs *)
          let email := validateEmail (email data) in
          if String.eqb email "" then fail_with "Invalid email format"
          else
            let* error := auth_signInWithPassword email (password data) in
            match error with
            | Some _ => fail_with "Invalid email or password"
            | None => do generateAndSetCsrfToken then succeed
            end
    end in
  (* Validate CSRF token if present in FormData *)
  match formData with
  | inl fd =>
      if fd_has "csrf_token" fd then
        let token := fd_get "csrf_token" fd in
        let* isValidCsrf := validateToken token in
        if negb isValidCsrf then fail_with CSRF_REJECTED else after_csrf
      else after_csrf
  | inr _ => after_csrf
  end.

Definition register (formData : FormData + RegisterFormData) : M (Result unit) :=
  let data :=
    match formData with
    | inl fd => {| name := fd_get "name" fd; email := fd_get "email" fd;
                   password := fd_get "password" fd |}
    | inr p => {| name := Some (r_name p); email := Some (r_email p);
                  password := Some (r_password p) |}
    end in
  let after_csrf : M (Result unit) :=
    (* Apply rate limiting - 3 registrations per hour from the same source *)
    let* allowed := checkRateLimitM "register_global" 3 3600000 in
    if negb allowed
    then fail_with "Registration is temporarily unavailable. Please try again later."
    else
      (* Sanitize and validate inputs *)
      let name := sanitizeInput (name data) in
      let email := validateEmail (email data) in
      if String.eqb email "" then fail_with "Invalid email format"
      else if String.eqb name "" || (String.length name <? 2)%nat
      then fail_with "Name is required and must be at least 2 characters"
      else
        let* error := auth_signUp email (password data) name in
        match error with
        | Some _ => fail_with "Registration failed. Please try again with a different email."
        | None => do generateAndSetCsrfToken then succeed
        end in
  (* Validate CSRF token if present in FormData *)
  match formData with
  | inl fd =>
      if fd_has "csrf_token" fd then
        let token := fd_get "csrf_token" fd in
        let* isValidCsrf := validateToken token in
        if negb isValidCsrf then fail_with CSRF_REJECTED else after_csrf
      else after_csrf
  | inr _ => after_csrf
  end.

Definition logout : M (Result unit) :=
  let* error := auth_signOut in
  match error with
  | Some e => fail_with e
  | None => succeed
  end.

(** ** app/lib/actions/poll-actions.ts *)

Definition RATE_LIMITED : string := "Rate limit exceeded. Please try again later.".

Definition POLL_INCOMPLETE : string :=
  "Please provide a question and at least two options.".

(** [formData.getAll("options").filter(Boolean).map(o => sanitizeInput(o))] *)
Definition sanitized_options (formData : FormData) : list string :=
  map (fun option => sanitizeInput (Some option))
      (List.filter (fun option => negb (String.eqb option ""))
                   (fd_getAll "options" formData)).

Definition createPoll (formData : FormData) : M (Result unit) :=
  let* r := auth_getUser in
  match reply_error r, reply_data r with
  | Some userError, _ => fail_with userError
  | None, None => fail_with "You must be logged in to create a poll."
  | None, Some user =>
      (* Apply rate limiting - 5 polls per minute *)
      let* allowed := checkRateLimitM ("create_poll_" +:+ u_id user) 5 60000 in
      if negb allowed then fail_with RATE_LIMITED
      else
        (* Sanitize inputs *)
        let question := sanitizeInput (fd_get "question" formData) in
        let options := sanitized_options formData in
        if String.eqb question "" || (length options <? 2)%nat
        then fail_with POLL_INCOMPLETE
        else
          let* error := polls_insert (u_id user) question options in
          match error with
          | Some e => fail_with e
          | None => do revalidatePath "/polls" then succeed
          end
  end.

Definition getUserPolls : M (Result (list Poll)) :=
  let* r := auth_getUser in
  match reply_data r with
  | None => ret {| data := []; error := Some "Not authenticated" |}
  | Some user =>
      let* q := polls_select_by_user (u_id user) in
      match reply_error q with
      | Some e => ret {| data := []; error := Some e |}
      | None => ret {| data := default [] (reply_data q); error := None |}
      end
  end.

Definition getPollById (id : string) : M (Result (option Poll)) :=
  let* q := polls_select_by_id id in
  match reply_error q with
  | Some e => ret {| data := None; error := Some e |}
  | None => ret {| data := reply_data q; error := None |}
  end.

Definition submitVote (pollId : string) (optionIndex : Z) : M (Result unit) :=
  let* r := auth_getUser in
  (* Require login to vote for security *)
  match reply_data r with
  | None => fail_with "You must be logged in to vote."
  | Some user =>
      (* Check if user has already voted on this poll *)
      let* q := votes_select pollId (u_id user) in
      match reply_error q with
      | Some checkError => fail_with checkError
      | None =>
          match reply_data q with
          | Some (_ :: _) => fail_with "You have already voted on this poll"
          | _ =>
              let* error := votes_insert pollId (u_id user) optionIndex in
              match error with
              | Some e => fail_with e
              | None => succeed
              end
          end
      end
  end.

Definition deletePoll (id : string) : M (Result unit) :=
  (* Get the current user *)
  let* r := auth_getUser in
  match reply_error r, reply_data r with
  | Some userError, _ => fail_with userError
  | None, None => fail_with "You must be logged in to delete a poll."
  | None, Some user =>
      (* First check if the poll belongs to the user *)
      let* q := polls_select_owner id in
      match reply_error q, reply_data q with
      | Some pollError, _ => fail_with pollError
      | None, None => fail_with "Poll not found"
      | None, Some poll_user_id =>
          if negb (String.eqb poll_user_id (u_id user))
          then fail_with "You can only delete your own polls"
          else
            (* Now delete the poll *)
            let* error := polls_delete id in
            match error with
            | Some e => fail_with e
            | None => do revalidatePath "/polls" then succeed
            end
      end
  end.

Definition updatePoll (pollId : string) (formData : FormData) : M (Result unit) :=
  (* Get user from session *)
  let* r := auth_getUser in
  match reply_error r, reply_data r with
  | Some userError, _ => fail_with userError
  | None, None => fail_with "You must be logged in to update a poll."
  | None, Some user =>
      (* Apply rate limiting - 10 updates per minute *)
      let* allowed := checkRateLimitM ("update_poll_" +:+ u_id user) 10 60000 in
      if negb allowed then fail_with RATE_LIMITED
      else
        (* Sanitize inputs *)
        let question := sanitizeInput (fd_get "question" formData) in
        let options := sanitized_options formData in
        if String.eqb question "" || (length options <? 2)%nat
        then fail_with POLL_INCOMPLETE
        else
          (* Only allow updating polls owned by the user *)
          let* error := polls_update question options pollId (u_id user) in
          match error with
          | Some e => fail_with e
          | None => succeed
          end
  end.

(** The documented actions, with their arguments. *)
Inductive Action : Type :=
| Login (formData : FormData + LoginFormData)
| Register (formData : FormData + RegisterFormData)
| Logout
| CreatePoll (formData : FormData)
| UpdatePoll (pollId : string) (formData : FormData)
| DeletePoll (id : string)
| SubmitVote (pollId : string) (optionIndex : Z)
| GetUserPolls
| GetPollById (id : string).

(** What an action leaves behind: the [error] field of its result, or the
    exception it threw. *)
Definition error_of {D} (o : Outcome (Result D)) : Outcome (option string) :=
  match o with
  | Returned r => Returned (error r)
  | Thrown e => Thrown e
  end.

Definition perform (a : Action) (w : World) : Outcome (option string) * World :=
  match a with
  | Login fd => let '(o, w') := login fd w in (error_of o, w')
  | Register fd => let '(o, w') := register fd w in (error_of o, w')
  | Logout => let '(o, w') := logout w in (error_of o, w')
  | CreatePoll fd => let '(o, w') := createPoll fd w in (error_of o, w')
  | UpdatePoll id fd => let '(o, w') := updatePoll id fd w in (error_of o, w')
  | DeletePoll id => let '(o, w') := deletePoll id w in (error_of o, w')
  | SubmitVote id i => let '(o, w') := submitVote id i w in (error_of o, w')
  | GetUserPolls => let '(o, w') := getUserPolls w in (error_of o, w')
  | GetPollById id => let '(o, w') := getPollById id w in (error_of o, w')
  end.

(** ** lib/supabase/middleware.ts and middleware.ts: the session gate *)

Record URL : Type := {
  pathname : string;
  searchParams : list (string * string)
}.

(** [searchParams.set(name, value)]: the first pair named [name] takes the
    value and the others are removed; without such a pair one is appended. *)
Fixpoint searchParams_set (name value : string) (ps : list (string * string))
  : list (string * string) :=
  match ps with
  | [] => [(name, value)]
  | (k, v) :: rest =>
      if String.eqb k name
      then (name, value) :: List.filter (fun e => negb (String.eqb (fst e) name)) rest
      else (k, v) :: searchParams_set name value rest
  end.

Definition searchParams_get (name : string) (ps : list (string * string))
  : option string :=
  snd <$> List.find (fun e => String.eqb (fst e) name) ps.

Record NextRequest : Type := {
  nextUrl : URL;
  cookies : list (string * string)
}.

(** [request.cookies.set(name, value)] *)
Fixpoint cookies_set (name value : string) (cs : list (string * string))
  : list (string * string) :=
  match cs with
  | [] => [(name, value)]
  | (k, v) :: rest =>
      if String.eqb k name then (name, value) :: rest
      else (k, v) :: cookies_set name value rest
  end.

(** A cookie the identity client asks to store, and the cookie as the gate
    writes it on the response. *)
Record CookieToSet : Type := {
  c_name : string;
  c_value : string;
  c_options : list (string * string)
}.

Record ResponseCookie : Type := {
  rc_name : string;
  rc_value : string;
  rc_options : list (string * string);
  rc_secure : bool;
  rc_sameSite : string;
  rc_httpOnly : bool
}.

Inductive NextResponse : Type :=
| NextResponse_next (request_cookies : list (string * string))
                    (response_cookies : list ResponseCookie)
| NextResponse_redirect (url : URL).

Record Env : Type := {
  NEXT_PUBLIC_SUPABASE_URL : option string;
  NEXT_PUBLIC_SUPABASE_ANON_KEY : option string;
  NODE_ENV : option string
}.

Record Session : Type := { s_user : User }.

(** The answer of [supabase.auth.getSession()] for the cookies of a
    request: the session, and the cookies handed to [setAll] when the
    session was refreshed. *)
Record SessionAnswer : Type := {
  session : option Session;
  cookiesToSet : option (list CookieToSet)
}.

Definition updateSession (env : Env)
    (getSession : list (string * string) -> SessionAnswer)
    (request : NextRequest) : NextResponse :=
  (* Check if environment variables are available *)
  if Js.falsy (NEXT_PUBLIC_SUPABASE_URL env) || Js.falsy (NEXT_PUBLIC_SUPABASE_ANON_KEY env)
  then NextResponse_next (cookies request) []
  else
    let answer := getSession (cookies request) in
    let supabaseResponse :=
      match cookiesToSet answer with
      | None => NextResponse_next (cookies request) []
      | Some cs =>
          NextResponse_next
            (fold_left (fun acc c => cookies_set (c_name c) (c_value c) acc) cs
                       (cookies request))
            (map (fun c => {| rc_name := c_name c; rc_value := c_value c;
                              rc_options := c_options c;
                              rc_secure :=
                                match NODE_ENV env with
                                | Some v => String.eqb v "production"
                                | None => false
                                end;
                              rc_sameSite := "lax";
                              rc_httpOnly := true |}) cs)
      end in
    let path := pathname (nextUrl request) in
    (* Check if we have a session, and if not, check if we need to redirect *)
    if match session answer with None => true | Some _ => false end
       && negb (Js.startsWith "/login" path)
       && negb (Js.startsWith "/register" path)
       && negb (Js.startsWith "/auth" path)
       && negb (String.eqb path "/")
    then
      NextResponse_redirect
        {| pathname := "/login";
           searchParams := searchParams_set "redirectTo" path
                             (searchParams (nextUrl request)) |}
    else supabaseResponse.

Definition middleware := updateSession.

(** The negative lookahead of [config.matcher], tried right after the
    leading slash: six literal prefixes, [favicon.ico] with its wildcard, and
    any rest that ends in an image extension. *)
Definition matcher_excluded : Regex.regex :=
  let any := Regex.Star (Regex.Class (fun _ => true)) in
  let then_any r := Regex.Seq r any in
  Regex.Alts
    [ then_any (Regex.Lit "_next/static");
      then_any (Regex.Lit "_next/image");
      then_any (Regex.Seq (Regex.Lit "favicon") (Regex.Seq Regex.Dot (Regex.Lit "ico")));
      then_any (Regex.Lit "login");
      then_any (Regex.Lit "register");
      then_any (Regex.Lit "auth");
      then_any (Regex.Lit "api/public");
      Regex.Seq (Regex.Star Regex.Dot)
        (Regex.Seq (Regex.Chr ".")
           (Regex.Alts [ Regex.Lit "svg"; Regex.Lit "png"; Regex.Lit "jpg";
                         Regex.Lit "jpeg"; Regex.Lit "gif"; Regex.Lit "webp" ])) ].

(** [config.matcher]: the paths the framework runs the middleware on. *)
Definition config_matcher (path : string) : bool :=
  match path with
  | String "/" rest =>
      negb (Regex.matches matcher_excluded rest)
      && Regex.matches (Regex.Star Regex.Dot) rest
  | _ => false
  end.

(** A request as the framework routes it: through [middleware] when the
    path matches [config.matcher], straight on otherwise. *)
Definition route (env : Env) (getSession : list (string * string) -> SessionAnswer)
    (request : NextRequest) : NextResponse :=
  if config_matcher (pathname (nextUrl request))
  then middleware env getSession request
  else NextResponse_next (cookies request) [].

(** The paths on which the gate asks for a session: those the matcher sends
    to the middleware, minus the ones [updateSession] lets through. *)
Definition protected (path : string) : bool :=
  config_matcher path
  && negb (Js.startsWith "/login" path)
  && negb (Js.startsWith "/register" path)
  && negb (Js.startsWith "/auth" path)
  && negb (String.eqb path "/").

(** ** Properties of the stores *)


(** Runs [checkRateLimit] at each of the given instants, oldest first, on
    one key; returns the verdicts and the final table. *)
Fixpoint checkRateLimit_at (times : list Z) (key : string) (maxAttempts windowMs : Z)
    (rateLimits : gmap string RateEntry) : list bool * gmap string RateEntry :=
  match times with
  | [] => ([], rateLimits)
  | now :: later =>
      let '(ok, table) := checkRateLimit now key maxAttempts windowMs rateLimits in
      let '(oks, final) := checkRateLimit_at later key maxAttempts windowMs table in
      (ok :: oks, final)
  end.

(** Whether a logged call is a delete on [polls]. *)
Definition is_delete (c : Call) : bool :=
  match c with Polls_delete _ => true | _ => false end.

(** Whether a logged call goes to the identity service. *)
Definition is_identity_call (c : Call) : bool :=
  match c with
  | Auth_getUser | Auth_signInWithPassword _ _ | Auth_signUp _ _ _ | Auth_signOut => true
  | _ => false
  end.

(** A world to run examples in: nothing stored, no fault, user [alice]. *)
Definition alice : User := {| u_id := "alice" |}.

Definition signed_in (u : option User) : Identity :=
  {| getUser_user := u; getUser_error := None;
     signIn_error := fun _ _ => None;
     signUp_error := fun _ _ _ => None;
     signOut_error := None |}.

Definition world0 (u : option User) : World :=
  {| clock := 1000; rateLimits := ∅; csrf_cookie := None;
     entropy := fun _ => "00"; identity := signed_in u; db_faults := [];
     db_ids := fun n => "poll-" +:+ pretty n; polls := []; votes := []; calls := [] |}.

(** The characters [sanitizeInput] rewrites. *)
Definition escaped_chars : list ascii := ["&"; "<"; ">"; Js.dquote; "'"]%char.

(** A string that holds none of them. *)
Definition escape_free (x : string) : bool :=
  forallb (fun c => negb (Js.contains c x)) escaped_chars.

(** Reads a buffer produced by [Buffer_from] back into its string. *)
Fixpoint Buffer_toString (bytes : list Z) : string :=
  match bytes with
  | [] => EmptyString
  | x :: rest =>
      if x <? 128 then String (ascii_of_nat (Z.to_nat x)) (Buffer_toString rest)
      else
        match rest with
        | [] => EmptyString
        | y :: rest' =>
            String (ascii_of_nat (Z.to_nat (Z.lor (Z.shiftl (Z.land x 3) 6) (Z.land y 63))))
                   (Buffer_toString rest')
        end
  end.

(** The data service answers the next [n] calls without a failure. *)
Definition answers (n : nat) (w : World) : Prop :=
  Forall (fun f => f = None) (take n (db_faults w)).

(** The calls an action added to the log. *)
Definition new_calls (before after : World) : list Call :=
  drop (length (calls before)) (calls after).


(** The email as [login] reads it off the submission. *)
Definition login_email (formData : FormData + LoginFormData) : option string :=
  match formData with
  | inl fd => fd_get "email" fd
  | inr p => Some (l_email p)
  end.


(** The result object [{ error: msg }]. *)
Definition rejected (msg : string) : Outcome (Result unit) :=
  Returned {| data := tt; error := Some msg |}.

(** ** Further sources *)

(** [Array.prototype.every] and [some] over the code units of a string. *)
Fixpoint every_unit (p : ascii -> bool) (s : string) : bool :=
  match s with
  | EmptyString => true
  | String a rest => p a && every_unit p rest
  end.

Fixpoint some_unit (p : ascii -> bool) (s : string) : bool :=
  match s with
  | EmptyString => false
  | String a rest => p a || some_unit p rest
  end.

(** The class [[^\s@]] of [emailRegex]. *)
Definition email_unit (a : ascii) : bool :=
  negb (Regex.is_space a || Ascii.eqb a "@").

(** The entity [sanitizeInput] writes for one character. *)
Definition escape_unit (a : ascii) : string :=
  if Ascii.eqb a "&" then "&amp;"
  else if Ascii.eqb a "<" then "&lt;"
  else if Ascii.eqb a ">" then "&gt;"
  else if Ascii.eqb a Js.dquote then "&quot;"
  else if Ascii.eqb a "'" then "&#039;"
  else String a EmptyString.

Fixpoint escape_each (s : string) : string :=
  match s with
  | EmptyString => EmptyString
  | String a rest => escape_unit a +:+ escape_each rest
  end.

(** Text without markup delimiters: no angle bracket and no quote. *)
Definition markup_free (s : string) : bool :=
  forallb (fun c => negb (Js.contains c s)) ["<"; ">"; Js.dquote; "'"]%char.

(** Every stored poll has a markup-free question and markup-free options. *)
Definition polls_markup_free (ps : list Poll) : Prop :=
  Forall (fun p => markup_free (p_question p) = true
                   /\ Forall (fun o => markup_free o = true) (p_options p)) ps.

(** Whether a logged call goes to the data service. *)
Definition is_data_call (c : Call) : bool :=
  match c with
  | Polls_insert _ _ _ | Polls_select_by_user _ | Polls_select_by_id _
  | Polls_select_owner _ | Polls_delete _ | Polls_update _ _ _ _
  | Votes_select _ _ | Votes_insert _ _ _ => true
  | _ => false
  end.

(** Whether a logged call writes to the data service. *)
Definition is_data_write (c : Call) : bool :=
  match c with
  | Polls_insert _ _ _ | Polls_delete _ | Polls_update _ _ _ _ | Votes_insert _ _ _ => true
  | _ => false
  end.

(** Rows by [created_at], newest first. *)
Fixpoint newest_first (ps : list Poll) : Prop :=
  match ps with
  | [] => True
  | p :: rest => Forall (fun q => p_created_at q <= p_created_at p) rest /\ newest_first rest
  end.

(** *** app/lib/utils/csrf.ts: the meta tag *)

Record Html : Type := { html : string }.

Definition getCsrfMetaTag : M Html :=
  (* Generate a token without setting a cookie (just for the meta tag) *)
  let* token := generateCsrfToken in
  ret {| html := "<meta name=" +:+ String Js.dquote "csrf-token" +:+ String Js.dquote " content="
                 +:+ String Js.dquote token +:+ String Js.dquote " />" |}.

(** *** The route handler that issues a token (src/unnamed/part_001) *)

Record TokenJson : Type := { json_token : string }.

Definition GET : M TokenJson :=
  let* token := generateAndSetCsrfToken in
  ret {| json_token := token |}.

(** *** The edit page of a poll (end of src/unnamed/part_000) *)

(** How the page ends: [notFound()], [redirect(path)], or the edit form. *)
Inductive Page : Type :=
| NotFound
| RedirectedTo (path : string)
| EditPollForm (poll : Poll).

Definition EditPollPage (id : string) : M Page :=
  let* r := getPollById id in
  match data r with
  | None => ret NotFound
  | Some poll =>
      if negb (Js.falsy (error r)) then ret NotFound
      else
        (* Check if the current user is the owner of the poll *)
        let* u := auth_getUser in
        match reply_data u with
        | None => ret (RedirectedTo "/polls")
        | Some user =>
            if negb (String.eqb (p_user_id poll) (u_id user))
            then ret (RedirectedTo "/polls")
            else ret (EditPollForm poll)
        end
  end.

(** *** app/(auth)/register/page.tsx *)

Definition is_upper (a : ascii) : bool :=
  let n := nat_of_ascii a in ((65 <=? n) && (n <=? 90))%nat.

Definition is_lower (a : ascii) : bool :=
  let n := nat_of_ascii a in ((97 <=? n) && (n <=? 122))%nat.

Definition is_digit (a : ascii) : bool :=
  let n := nat_of_ascii a in ((48 <=? n) && (n <=? 57))%nat.

(** The class of [hasSpecialChar]. *)
Definition special_chars : list ascii :=
  ["!"; "@"; "#"; "$"; "%"; "^"; "&"; "*"; "("; ")"; ","; "."; "?"; Js.dquote;
   ":"; "{"; "}"; "|"; "<"; ">"]%char.

Definition is_special (a : ascii) : bool := existsb (Ascii.eqb a) special_chars.

(** [validatePassword(password)]: the value returned, and the label handed
    to [setPasswordStrength].  An unanchored [/[class]/.test(s)] holds when
    some code unit of [s] is in the class. *)
Definition validatePassword (password : string) : bool * string :=
  let minLength := 8%nat in
  let hasUpperCase := some_unit is_upper password in
  let hasLowerCase := some_unit is_lower password in
  let hasNumbers := some_unit is_digit password in
  let hasSpecialChar := some_unit is_special password in
  let isValid :=
    (minLength <=? String.length password)%nat
    && hasUpperCase && hasLowerCase && hasNumbers && hasSpecialChar in
  let strength :=
    if (String.length password =? 0)%nat then ""
    else if isValid then "strong"
    else if (6 <=? String.length password)%nat && (hasUpperCase || hasLowerCase) && hasNumbers
         then "medium"
    else "weak" in
  (isValid, strength).

(** How [handleSubmit] ends: an error shown on the page, or the browser
    sent to another address. *)
Inductive Submitted : Type :=
| ShowError (message : string)
| GoTo (href : string).

Definition PASSWORD_POLICY : string :=
  "Password must be at least 8 characters and include uppercase, lowercase, numbers, and special characters".

(** [handleSubmit], with the entries of the form and the [csrfToken] state
    of the page. *)
Definition handleSubmit (form : FormData) (csrfToken : string) : M Submitted :=
  let password := fd_get "password" form in
  let confirmPassword := fd_get "confirmPassword" form in
  if negb (bool_decide (password = confirmPassword))
  then ret (ShowError "Passwords do not match")
  else
    match password with
    | None => throw (TypeError "Cannot read properties of null (reading 'length')")
    | Some pw =>
        if negb (fst (validatePassword pw)) then ret (ShowError PASSWORD_POLICY)
        else
          (* Add the CSRF token *)
          let formData :=
            if negb (String.eqb csrfToken "")
            then (form ++ [("csrf_token", csrfToken)])%list
            else form in
          let* result := register (inl formData) in
          if negb (Js.falsy (error result))
          then ret (ShowError (default "" (error result)))
          else ret (GoTo "/polls")
    end.

(** The fields of a submission, as [login] and [register] read them. *)
Definition login_password (formData : FormData + LoginFormData) : option string :=
  match formData with
  | inl fd => fd_get "password" fd
  | inr p => Some (l_password p)
  end.

Definition register_name (formData : FormData + RegisterFormData) : option string :=
  match formData with
  | inl fd => fd_get "name" fd
  | inr p => Some (r_name p)
  end.

Definition register_email (formData : FormData + RegisterFormData) : option string :=
  match formData with
  | inl fd => fd_get "email" fd
  | inr p => Some (r_email p)
  end.

Definition register_password (formData : FormData + RegisterFormData) : option string :=
  match formData with
  | inl fd => fd_get "password" fd
  | inr p => Some (r_password p)
  end.

(** The errors [login] and [register] can return. *)
Definition login_errors : list (option string) :=
  [ None; Some CSRF_REJECTED;
    Some "Too many login attempts. Please try again later.";
    Some "Invalid email format";
    Some "Invalid email or password" ].

Definition register_errors : list (option string) :=
  [ None; Some CSRF_REJECTED;
    Some "Registration is temporarily unavailable. Please try again later.";
    Some "Invalid email format";
    Some "Name is required and must be at least 2 characters";
    Some "Registration failed. Please try again with a different email." ].

(** The actions that ask for a signed-in user before anything else. *)
Definition requires_login (a : Action) : bool :=
  match a with
  | CreatePoll _ | UpdatePoll _ _ | DeletePoll _ | SubmitVote _ _ | GetUserPolls => true
  | _ => false
  end.

(** The form of [createPoll] and [updatePoll] has a question and two
    non-empty options at least. *)
Definition poll_form_complete (formData : FormData) : bool :=
  negb (Js.falsy (fd_get "question" formData))
  && (2 <=? length (List.filter (fun o => negb (String.eqb o ""))
                                (fd_getAll "options" formData)))%nat.

(** The result object [{ error: null }]. *)
Definition accepted : Outcome (Result unit) :=
  Returned {| data := tt; error := None |}.

(** *** submitVote, one await at a time *)

(** [submitVote] awaits three outside calls in turn: the user lookup
    (security.ts 147-149), the vote lookup (155-159) and the insert (167-173).
    Nothing ties the lookup to the insert, so between two awaits of one call
    the awaits of another call can run.  A call in flight is at one of its
    three awaits, or has returned. *)
Inductive VoteCall : Type :=
| AtGetUser (pollId : string) (optionIndex : Z)
| AtLookup (pollId : string) (optionIndex : Z) (user : User)
| AtInsert (pollId : string) (optionIndex : Z) (user : User)
| Done (result : Result unit).

(** One await of [submitVote], with the code that follows it up to the next
    await. *)
Definition submitVote_step (c : VoteCall) : M VoteCall :=
  match c with
  | AtGetUser pollId optionIndex =>
      let* r := auth_getUser in
      match reply_data r with
      | None => ret (Done {| data := tt; error := Some "You must be logged in to vote." |})
      | Some user => ret (AtLookup pollId optionIndex user)
      end
  | AtLookup pollId optionIndex user =>
      let* q := votes_select pollId (u_id user) in
      match reply_error q with
      | Some checkError => ret (Done {| data := tt; error := Some checkError |})
      | None =>
          match reply_data q with
          | Some (_ :: _) =>
              ret (Done {| data := tt; error := Some "You have already voted on this poll" |})
          | _ => ret (AtInsert pollId optionIndex user)
          end
      end
  | AtInsert pollId optionIndex user =>
      let* error := votes_insert pollId (u_id user) optionIndex in
      match error with
      | Some e => ret (Done {| data := tt; error := Some e |})
      | None => ret (Done {| data := tt; error := None |})
      end
  | Done result => ret (Done result)
  end.


(** * Theorems *)

(** ** sanitizeInput *)

Section Sanitize.

Lemma length_append (s t : string) :
  String.length (s +:+ t) = (String.length s + String.length t)%nat.
Proof. induction s as [|a s IH]; simpl; [reflexivity | now rewrite IH]. Qed.

Lemma occurrences_append (c : ascii) (s t : string) :
  Js.occurrences c (s +:+ t) = (Js.occurrences c s + Js.occurrences c t)%nat.
Proof. induction s as [|a s IH]; simpl; [reflexivity | rewrite IH; lia]. Qed.

(** A replacement of a character that does not occur changes nothing. *)
Lemma replaceAll_absent (c : ascii) (r s : string) :
  Js.contains c s = false -> Js.replaceAll c r s = s.
Proof.
  unfold Js.contains. induction s as [|a s IH]; simpl; [reflexivity|].
  destruct (Ascii.eqb a c); simpl; [discriminate|].
  intros H. now rewrite IH.
Qed.

(** A replacement by a non-empty string never shortens. *)
Lemma length_replaceAll_ge (c : ascii) (r s : string) :
  (1 <= String.length r)%nat ->
  (String.length s <= String.length (Js.replaceAll c r s))%nat.
Proof.
  intros Hr. induction s as [|a s IH]; simpl; [lia|].
  destruct (Ascii.eqb a c); simpl; [rewrite length_append|]; lia.
Qed.

(** A replacement by two characters or more lengthens a string that holds
    the character. *)
Lemma length_replaceAll_gt (c : ascii) (r s : string) :
  (2 <= String.length r)%nat -> Js.contains c s = true ->
  (String.length s < String.length (Js.replaceAll c r s))%nat.
Proof.
  intros Hr. unfold Js.contains. induction s as [|a s IH]; simpl; [discriminate|].
  pose proof (length_replaceAll_ge c r s ltac:(lia)) as Hge.
  destruct (Ascii.eqb a c); simpl.
  - intros _. rewrite length_append. lia.
  - intros H. specialize (IH H). lia.
Qed.

(** A replacement whose text holds [d] keeps every [d] it finds. *)
Lemma occurrences_replaceAll_ge (d c : ascii) (r s : string) :
  (1 <= Js.occurrences d r)%nat ->
  (Js.occurrences d s <= Js.occurrences d (Js.replaceAll c r s))%nat.
Proof.
  intros Hr. induction s as [|a s IH]; simpl; [lia|].
  destruct (Ascii.eqb a c) eqn:Eac; simpl.
  - rewrite occurrences_append. destruct (Ascii.eqb a d); lia.
  - destruct (Ascii.eqb a d); lia.
Qed.

Lemma contains_replaceAll (d c : ascii) (r s : string) :
  (1 <= Js.occurrences d r)%nat ->
  Js.contains d s = true -> Js.contains d (Js.replaceAll c r s) = true.
Proof.
  intros Hr. unfold Js.contains.
  pose proof (occurrences_replaceAll_ge d c r s Hr).
  rewrite !negb_true_iff, !Nat.eqb_neq. lia.
Qed.

Lemma contains_nonempty (c : ascii) (s : string) :
  Js.contains c s = true -> Js.falsy (Some s) = false.
Proof. destruct s; [discriminate | reflexivity]. Qed.

(** On a string that holds an ampersand, the output holds one too and is
    strictly longer than the input. *)
Lemma sanitizeInput_ampersand (x : string) :
  Js.contains "&" x = true ->
  Js.contains "&" (sanitizeInput (Some x)) = true
  /\ (String.length x < String.length (sanitizeInput (Some x)))%nat.
Proof.
  intros H. unfold sanitizeInput. rewrite (contains_nonempty _ _ H). split.
  - repeat (apply contains_replaceAll; [simpl; lia|]). exact H.
  - eapply Nat.lt_le_trans; [apply (length_replaceAll_gt "&" "&amp;" x); [simpl; lia | exact H]|].
    do 4 (etransitivity; [|apply length_replaceAll_ge; simpl; lia]). reflexivity.
Qed.

Lemma sanitizeInput_escape_free (x : string) :
  escape_free x = true -> sanitizeInput (Some x) = x.
Proof.
  unfold escape_free, escaped_chars. simpl.
  rewrite !andb_true_iff, !negb_true_iff. intros (H1 & H2 & H3 & H4 & H5 & _).
  unfold sanitizeInput. destruct x as [|a x]; [reflexivity|].
  cbn [Js.falsy String.eqb].
  rewrite (replaceAll_absent _ _ _ H1), (replaceAll_absent _ _ _ H2),
    (replaceAll_absent _ _ _ H3), (replaceAll_absent _ _ _ H4).
  apply (replaceAll_absent _ _ _ H5).
Qed.

End Sanitize.

(** C9. [sanitizeInput("<b>")] is ["&lt;b&gt;"]; a string with none of the
    five characters (ampersand, less-than, greater-than, double quote, single
    quote) comes back unchanged, so sanitizing it twice
    is the same as sanitizing it once; and on a string that holds [&]
    sanitizing twice escapes twice: the second result differs from the
    first. *)
Theorem sanitizeInput_escaping :
  sanitizeInput (Some "<b>") = "&lt;b&gt;"
  /\ (forall x : string, escape_free x = true ->
        sanitizeInput (Some x) = x
        /\ sanitizeInput (Some (sanitizeInput (Some x))) = sanitizeInput (Some x))
  /\ (forall x : string, Js.contains "&" x = true ->
        sanitizeInput (Some (sanitizeInput (Some x))) <> sanitizeInput (Some x)).
Proof.
  split; [reflexivity|]. split.
  - intros x Hx. pose proof (sanitizeInput_escape_free x Hx) as E.
    split; [exact E | now rewrite !E].
  - intros x Hx E.
    destruct (sanitizeInput_ampersand x Hx) as [Hy _].
    destruct (sanitizeInput_ampersand _ Hy) as [_ Hlen].
    rewrite E in Hlen. lia.
Qed.

Lemma sanitizeInput_escaping_witness :
  escape_free "plain text" = true
  /\ sanitizeInput (Some "plain text") = "plain text"
  /\ Js.contains "&" "a&b" = true
  /\ sanitizeInput (Some (sanitizeInput (Some "a&b"))) <> sanitizeInput (Some "a&b").
Proof.
  destruct sanitizeInput_escaping as (_ & Hfree & Hamp).
  split; [reflexivity|]. split; [apply (Hfree "plain text"); reflexivity|].
  split; [reflexivity|]. apply (Hamp "a&b"). reflexivity.
Defined.


(** ** checkRateLimit *)

Section RateLimit.

Variables (key : string) (maxAttempts windowMs : Z).
Hypothesis own_key : inherited key = false.

(** A first call, or a call later than the stored window end, opens a new
    window and counts one. *)
Lemma checkRateLimit_opens (now : Z) (rl : gmap string RateEntry) :
  (rl !! key = None \/ exists e, rl !! key = Some e /\ resetTime e < now) ->
  checkRateLimit now key maxAttempts windowMs rl
  = (1 <=? maxAttempts, <[key := {| count := 1; resetTime := now + windowMs |}]> rl).
Proof.
  intros H. unfold checkRateLimit. rewrite own_key.
  assert (match rl !! key with
          | None => <[key := {| count := 0; resetTime := now + windowMs |}]> rl
          | Some e => if resetTime e <? now
                      then <[key := {| count := 0; resetTime := now + windowMs |}]> rl
                      else rl
          end = <[key := {| count := 0; resetTime := now + windowMs |}]> rl) as ->.
  { destruct H as [-> | (e & -> & Hlt)]; [reflexivity|].
    apply Z.ltb_lt in Hlt. now rewrite Hlt. }
  rewrite alter_insert_eq, lookup_insert_eq. reflexivity.
Qed.

(** A call no later than the stored window end counts in that window. *)
Lemma checkRateLimit_counts (now : Z) (rl : gmap string RateEntry) (e : RateEntry) :
  rl !! key = Some e -> now <= resetTime e ->
  checkRateLimit now key maxAttempts windowMs rl
  = (count e + 1 <=? maxAttempts,
     <[key := {| count := count e + 1; resetTime := resetTime e |}]> rl).
Proof.
  intros Hk Hle. unfold checkRateLimit. rewrite own_key, Hk.
  apply Z.ltb_ge in Hle. rewrite Hle.
  rewrite (alter_alt_Some _ _ _ _ Hk), lookup_insert_eq. reflexivity.
Qed.

End RateLimit.

(** C2, as the code has it.  For a key that is not a property name of
    [Object.prototype]: on the first call for the key, or when [now] is
    strictly later than the stored window end, the state of the key becomes
    count 1 in a window ending at [now + windowMs]; when [now] is at or
    before the stored window end (the end itself included) the count goes up
    by one in the same window; either way the verdict compares the
    incremented count with [maxAttempts], and no other key changes.  With
    [maxAttempts = 5] and [windowMs = 60000], six calls inside one window
    answer true five times and then false, and a call after the window end
    answers true again. *)
Theorem checkRateLimit_fixed_window :
  forall (key : string), inherited key = false ->
    (forall now maxAttempts windowMs rl,
        (rl !! key = None \/ exists e, rl !! key = Some e /\ resetTime e < now) ->
        checkRateLimit now key maxAttempts windowMs rl
        = (1 <=? maxAttempts, <[key := {| count := 1; resetTime := now + windowMs |}]> rl))
    /\ (forall now maxAttempts windowMs rl e,
        rl !! key = Some e -> now <= resetTime e ->
        checkRateLimit now key maxAttempts windowMs rl
        = (count e + 1 <=? maxAttempts,
           <[key := {| count := count e + 1; resetTime := resetTime e |}]> rl))
    /\ (forall now maxAttempts windowMs rl other,
        other <> key ->
        snd (checkRateLimit now key maxAttempts windowMs rl) !! other = rl !! other)
    /\ (forall rl t1 t2 t3 t4 t5 t6 t7,
        (rl !! key = None \/ exists e, rl !! key = Some e /\ resetTime e < t1) ->
        Forall (fun t => t <= t1 + 60000) [t2; t3; t4; t5; t6] ->
        t1 + 60000 < t7 ->
        fst (checkRateLimit_at [t1; t2; t3; t4; t5; t6; t7] key 5 60000 rl)
        = [true; true; true; true; true; false; true]).
Proof.
  intros key Hown. repeat split.
  - intros. now apply checkRateLimit_opens.
  - intros. now apply checkRateLimit_counts.
  - intros now maxAttempts windowMs rl other Hne.
    destruct (rl !! key) as [e|] eqn:Hk.
    + destruct (Z.lt_ge_cases (resetTime e) now) as [Hlt | Hge].
      * rewrite (checkRateLimit_opens key maxAttempts windowMs Hown now rl) by eauto.
        simpl. now rewrite lookup_insert_ne.
      * rewrite (checkRateLimit_counts key maxAttempts windowMs Hown now rl e Hk) by lia.
        simpl. now rewrite lookup_insert_ne.
    + rewrite (checkRateLimit_opens key maxAttempts windowMs Hown now rl) by eauto.
      simpl. now rewrite lookup_insert_ne.
  - intros rl t1 t2 t3 t4 t5 t6 t7 Hfirst Hin Hout.
    repeat match goal with
           | H : Forall _ (_ :: _) |- _ => apply Forall_cons in H; destruct H
           end.
    cbn [checkRateLimit_at].
    rewrite (checkRateLimit_opens key 5 60000 Hown t1 rl Hfirst).
    do 5 (erewrite (checkRateLimit_counts key 5 60000 Hown);
          [| apply lookup_insert_eq | simpl; lia];
          rewrite insert_insert_eq; cbn [count resetTime]).
    rewrite (checkRateLimit_opens key 5 60000 Hown t7).
    + reflexivity.
    + right. eexists. split; [apply lookup_insert_eq | simpl; lia].
Qed.

Lemma checkRateLimit_fixed_window_witness :
  fst (checkRateLimit_at [0; 10; 20; 30; 40; 60000; 60001] "login_a@b.co" 5 60000 ∅)
  = [true; true; true; true; true; false; true].
Proof.
  destruct (checkRateLimit_fixed_window "login_a@b.co" eq_refl) as (_ & _ & _ & H).
  apply H.
  - left. apply lookup_empty.
  - repeat constructor; lia.
  - lia.
Defined.

(** C2, as the spec words it, fails at the window end itself: with
    [now] equal to the stored window end the window is kept, so a call that
    finds the count at the limit is counted one more and refused, where a
    reset would count 1 and admit.  It also fails for a key found on
    [Object.prototype]: the first call for [constructor] is refused and
    nothing is stored. *)
Lemma checkRateLimit_keeps_window_at_its_end :
  ~ (forall now key maxAttempts windowMs rl e,
        rl !! key = Some e -> now >= resetTime e ->
        checkRateLimit now key maxAttempts windowMs rl
        = (1 <=? maxAttempts, <[key := {| count := 1; resetTime := now + windowMs |}]> rl))
  /\ checkRateLimit 60000 "register_global" 3 3600000
       {["register_global" := {| count := 3; resetTime := 60000 |}]}
     = (false, {["register_global" := {| count := 4; resetTime := 60000 |}]})
  /\ checkRateLimit 0 "constructor" 5 60000 ∅ = (false, ∅).
Proof.
  assert (checkRateLimit 60000 "register_global" 3 3600000
            {["register_global" := {| count := 3; resetTime := 60000 |}]}
          = (false, {["register_global" := {| count := 4; resetTime := 60000 |}]})) as Hrun.
  { rewrite (checkRateLimit_counts "register_global" 3 3600000 eq_refl 60000 _
               {| count := 3; resetTime := 60000 |} (lookup_singleton_eq _ _))
      by (simpl; lia).
    cbn [count resetTime]. now rewrite insert_singleton_eq. }
  split; [|split; [exact Hrun | reflexivity]].
  intros H.
  specialize (H 60000 "register_global" 3 3600000
                {["register_global" := {| count := 3; resetTime := 60000 |}]}
                {| count := 3; resetTime := 60000 |}
                (lookup_singleton_eq _ _) ltac:(simpl; lia)).
  rewrite Hrun in H. discriminate H.
Qed.

(** ** CSRF validation *)

Section Csrf.

Lemma ct_equal_acc (a b : list Z) (acc : Z) :
  length a = length b ->
  (fold_left (fun acc xy => Z.lor acc (Z.lxor (fst xy) (snd xy))) (combine a b) acc = 0
   <-> acc = 0 /\ a = b).
Proof.
  revert b acc. induction a as [|x a IH]; intros [|y b] acc Hlen; simpl in *; try discriminate.
  - tauto.
  - injection Hlen as Hlen. rewrite (IH b _ Hlen), Z.lor_eq_0_iff, Z.lxor_eq_0_iff.
    split.
    + intros [[-> ->] ->]. tauto.
    + intros [-> E]. injection E as -> ->. tauto.
Qed.

(** On buffers of one length the accumulated comparison is equality. *)
Lemma ct_equal_iff (a b : list Z) :
  length a = length b -> (ct_equal a b = true <-> a = b).
Proof.
  intros Hlen. unfold ct_equal. rewrite Z.eqb_eq, (ct_equal_acc a b 0 Hlen). tauto.
Qed.

Lemma Buffer_roundtrip_unit (a : ascii) (rest : list Z) :
  Buffer_toString (utf8_unit a ++ rest) = String a (Buffer_toString rest).
Proof.
  destruct a as [[] [] [] [] [] [] [] []]; reflexivity.
Qed.

(** [Buffer.from] loses nothing: the string can be read back. *)
Lemma Buffer_roundtrip (s : string) : Buffer_toString (Buffer_from s) = s.
Proof.
  induction s as [|a s IH]; [reflexivity|].
  cbn [Buffer_from]. now rewrite Buffer_roundtrip_unit, IH.
Qed.

Lemma Buffer_from_inj (s t : string) : Buffer_from s = Buffer_from t -> s = t.
Proof.
  intros E. rewrite <- (Buffer_roundtrip s), <- (Buffer_roundtrip t). now rewrite E.
Qed.

(** What one validation does, case by case. *)
Lemma validateCsrfToken_run (token : option string) (w : World) :
  validateCsrfToken token w
  = match csrf_cookie w, token with
    | Some s, Some t =>
        if String.eqb s "" || String.eqb t ""
        then (Returned false, set_calls (calls w ++ [Cookies_get "csrf_token"]) w)
        else
          (Returned ((length (Buffer_from t) =? length (Buffer_from s))%nat
                     && ct_equal (Buffer_from t) (Buffer_from s)),
           set_calls ((calls w ++ [Cookies_get "csrf_token"])
                        ++ [Crypto_timingSafeEqual (Buffer_from t) (Buffer_from s)]) w)
    | _, _ => (Returned false, set_calls (calls w ++ [Cookies_get "csrf_token"]) w)
    end.
Proof.
  unfold validateCsrfToken, getCsrfCookie, timingSafeEqual, try_catch, bind, outside, ret, throw.
  cbn. destruct (csrf_cookie w) as [s|], token as [t|]; try reflexivity.
  cbn. destruct (String.eqb s ""), (String.eqb t ""); try reflexivity.
  cbn. destruct (length (Buffer_from t) =? length (Buffer_from s))%nat; reflexivity.
Qed.

Lemma validateToken_same (token : option string) (w : World) :
  validateToken token w = validateCsrfToken token w.
Proof. reflexivity. Qed.

End Csrf.

(** C1. CSRF validation ([validateCsrfToken], and [validateToken], which is
    the same function) answers false when no [csrf_token] cookie is stored,
    when the submitted token is null or empty, and when the two tokens differ
    in byte length or in any byte; it answers true only when the submitted
    token is, byte for byte, the stored one; and when both tokens are there
    the verdict is the outcome of one call to [crypto.timingSafeEqual] on
    the two whole buffers, a throw on unequal lengths being caught as
    false. *)
Theorem csrf_validation :
  forall (token : option string) (w : World),
    let stored := csrf_cookie w in
    let verdict := fst (validateCsrfToken token w) in
    let after := snd (validateCsrfToken token w) in
    (stored = None -> verdict = Returned false)
    /\ (Js.falsy token = true -> verdict = Returned false)
    /\ (forall t s, token = Some t -> stored = Some s ->
          length (Buffer_from t) <> length (Buffer_from s) -> verdict = Returned false)
    /\ (forall t s, token = Some t -> stored = Some s ->
          Buffer_from t <> Buffer_from s -> verdict = Returned false)
    /\ (verdict = Returned true ->
          exists t, token = Some t /\ stored = Some t /\ t <> "")
    /\ (forall t s, token = Some t -> stored = Some s -> t <> "" -> s <> "" ->
          new_calls w after
          = [Cookies_get "csrf_token";
             Crypto_timingSafeEqual (Buffer_from t) (Buffer_from s)]
          /\ verdict = fst (try_catch (timingSafeEqual (Buffer_from t) (Buffer_from s))
                                      (fun _ => ret false) w)
          /\ (verdict = Returned true <-> Buffer_from t = Buffer_from s))
    /\ validateToken token w = validateCsrfToken token w.
Proof.
  intros token w stored verdict after.
  subst stored verdict after. rewrite validateCsrfToken_run.
  split; [|split; [|split; [|split; [|split; [|split]]]]].
  - intros ->. reflexivity.
  - destruct token as [t|]; cbn.
    + intros Ht. destruct (csrf_cookie w); [|reflexivity].
      rewrite Ht, orb_true_r. reflexivity.
    + intros _. destruct (csrf_cookie w); reflexivity.
  - intros t s -> -> Hlen. apply Nat.eqb_neq in Hlen. rewrite Hlen.
    destruct (_ || _); reflexivity.
  - intros t s -> -> Hne. destruct (_ || _); [reflexivity|]. cbn.
    destruct (length (Buffer_from t) =? length (Buffer_from s))%nat eqn:Hlen; [|reflexivity].
    apply Nat.eqb_eq in Hlen. cbn.
    destruct (ct_equal _ _) eqn:Hct; [|reflexivity].
    apply (ct_equal_iff _ _ Hlen) in Hct. contradiction.
  - destruct (csrf_cookie w) as [s|], token as [t|]; cbn; try discriminate.
    destruct (String.eqb s "") eqn:Hs, (String.eqb t "") eqn:Ht; cbn; try discriminate.
    destruct (length (Buffer_from t) =? length (Buffer_from s))%nat eqn:Hlen;
      cbn; [|discriminate].
    apply Nat.eqb_eq in Hlen. intros H. injection H as H.
    apply (ct_equal_iff _ _ Hlen), Buffer_from_inj in H. subst s.
    exists t. repeat split. now apply String.eqb_neq.
  - intros t s -> -> Ht Hs. apply String.eqb_neq in Ht, Hs. rewrite Ht, Hs. cbn.
    split; [|split].
    + unfold new_calls. cbn. rewrite <- app_assoc. apply drop_app_length.
    + unfold try_catch, timingSafeEqual, bind, outside, ret, throw. cbn.
      destruct (length (Buffer_from t) =? length (Buffer_from s))%nat; reflexivity.
    + destruct (length (Buffer_from t) =? length (Buffer_from s))%nat eqn:Hlen; cbn.
      * apply Nat.eqb_eq in Hlen. rewrite <- (ct_equal_iff _ _ Hlen).
        split; [now intros [= ->] | now intros ->].
      * apply Nat.eqb_neq in Hlen. split; [discriminate | intros E; now rewrite E in Hlen].
  - exact (validateCsrfToken_run token w).
Qed.

Lemma csrf_validation_witness :
  fst (validateCsrfToken (Some "abcd") (world0 None)) = Returned false
  /\ fst (validateCsrfToken (Some "abce") (set_csrf_cookie (Some "abcd") (world0 None)))
     = Returned false.
Proof.
  split.
  - destruct (csrf_validation (Some "abcd") (world0 None)) as (H & _).
    apply H. reflexivity.
  - destruct (csrf_validation (Some "abce") (set_csrf_cookie (Some "abcd") (world0 None)))
      as (_ & _ & _ & H & _).
    apply (H "abce" "abcd"); [reflexivity | reflexivity | discriminate].
Defined.

(** ** Poll and vote actions *)

(** Unfolds an action down to the world it acts on. *)
Ltac run :=
  unfold deletePoll, submitVote, updatePoll, createPoll, getUserPolls, getPollById, logout,
    login, register, validateToken, getCsrfToken, generateAndSetCsrfToken, randomHex32,
    timingSafeEqual, try_catch,
    auth_getUser, auth_signOut, auth_signInWithPassword, auth_signUp,
    polls_select_owner, polls_select_by_id, polls_select_by_user, polls_delete,
    polls_update, polls_insert, votes_select, votes_insert, revalidatePath,
    checkRateLimitM, db_fault, fail_with, succeed, bind, ret, throw, outside;
  cbn.

(** Reads the calls an action appended off the log. *)
Ltac appended :=
  unfold new_calls; cbn; rewrite <- ?app_assoc; cbn;
  rewrite ?drop_app_length, ?drop_all; try reflexivity.

Section Stores.

Lemma filter_nil_iff {A} (f : A -> bool) (l : list A) :
  List.filter f l = [] <-> (forall x, In x l -> f x = false).
Proof.
  induction l as [|a l IH]; simpl; [tauto|].
  destruct (f a) eqn:Ha; split.
  - discriminate.
  - intros H. specialize (H a (or_introl eq_refl)). congruence.
  - intros H x [<- | Hx]; [exact Ha | now apply IH].
  - intros H. apply IH. intros x Hx. apply H. now right.
Qed.

Lemma vote_of_iff (pollId userId : string) (v : Vote) :
  vote_of pollId userId v = true <-> v_poll_id v = pollId /\ v_user_id v = userId.
Proof. unfold vote_of. now rewrite andb_true_iff, !String.eqb_eq. Qed.




Lemma lookup_map_fixed {A} (f : A -> A) (l : list A) (i : nat) (x : A) :
  l !! i = Some x -> f x = x -> map f l !! i = Some x.
Proof.
  revert i. induction l as [|a l IH]; intros [|i] H Hx; cbn in *; try discriminate.
  - injection H as ->. now rewrite Hx.
  - now apply IH.
Qed.

End Stores.

(** C3. When the caller is authenticated and is not the stored owner of
    the target poll, [deletePoll] makes two calls only, the user lookup and
    the owner lookup, so no delete reaches the data service and [polls] is
    unchanged; and, the owner lookup being answered, the result is the
    error [You can only delete your own polls]. *)
Theorem deletePoll_refuses_other_owner :
  forall (id : string) (w : World) (user : User) (poll : Poll),
    getUser_user (identity w) = Some user ->
    getUser_error (identity w) = None ->
    List.filter (has_id id) (polls w) = [poll] ->
    p_user_id poll <> u_id user ->
    let result := fst (deletePoll id w) in
    let after := snd (deletePoll id w) in
    new_calls w after = [Auth_getUser; Polls_select_owner id]
    /\ existsb is_delete (new_calls w after) = false
    /\ polls after = polls w
    /\ (answers 1 w ->
        result = Returned {| data := tt;
                             error := Some "You can only delete your own polls" |}).
Proof.
  intros id w user poll Huser Herr Hpoll Hne result after.
  assert (new_calls w after = [Auth_getUser; Polls_select_owner id]) as Hcalls.
  { subst after. run. rewrite Huser, Herr. cbn.
    apply String.eqb_neq in Hne.
    destruct (db_faults w) as [|[e|] faults]; cbn; rewrite ?Hpoll; cbn; rewrite ?Hne; cbn;
      appended. }
  split; [exact Hcalls|]. split; [now rewrite Hcalls|].
  subst result after. unfold answers. run. rewrite Huser, Herr. cbn.
  apply String.eqb_neq in Hne.
  destruct (db_faults w) as [|[e|] faults]; cbn; rewrite ?Hpoll; cbn; rewrite ?Hne; cbn;
    (split; [reflexivity|]); intros H; try reflexivity.
  apply Forall_cons in H as [H _]. discriminate H.
Qed.

Lemma deletePoll_refuses_other_owner_witness :
  let w := set_polls [{| p_id := "p1"; p_user_id := "bob"; p_question := "q";
                         p_options := ["a"; "b"]; p_created_at := 0 |}]
                     (world0 (Some alice)) in
  fst (deletePoll "p1" w)
  = Returned {| data := tt; error := Some "You can only delete your own polls" |}
  /\ polls (snd (deletePoll "p1" w)) = polls w.
Proof.
  intros w.
  destruct (deletePoll_refuses_other_owner "p1" w alice
              {| p_id := "p1"; p_user_id := "bob"; p_question := "q";
                 p_options := ["a"; "b"]; p_created_at := 0 |}
              eq_refl eq_refl eq_refl ltac:(discriminate)) as (_ & _ & Hp & Hr).
  split; [apply Hr; constructor | exact Hp].
Defined.



(** Run on its own, the three awaits in a row are [submitVote]. *)
Lemma submitVote_by_steps (pollId : string) (optionIndex : Z) (w : World) :
  (let* c1 := submitVote_step (AtGetUser pollId optionIndex) in
   let* c2 := submitVote_step c1 in
   submitVote_step c2) w
  = (let* result := submitVote pollId optionIndex in ret (Done result)) w.
Proof.
  unfold submitVote_step. run.
  destruct (getUser_user (identity w)) as [user|]; cbn; [|reflexivity].
  destruct (db_faults w) as [|[e|] [|[e'|] faults]] eqn:Hd; cbn; try reflexivity;
    destruct (List.filter (vote_of pollId (u_id user)) (votes w)); cbn; rewrite ?Hd;
    reflexivity.
Qed.


(** C8. Every update [updatePoll] sends to the data service is filtered by
    the target poll id and by the id of the calling user; so a poll whose
    [user_id] is not the caller's is, after the call, the row it was before,
    question and options included, also when its id is the target. *)
Theorem updatePoll_scoped_to_caller :
  forall (pollId : string) (formData : FormData) (w : World),
    let after := snd (updatePoll pollId formData w) in
    (forall question options id user_id,
        In (Polls_update question options id user_id) (new_calls w after) ->
        id = pollId /\ getUser_user (identity w) = Some {| u_id := user_id |})
    /\ (forall (i : nat) (p : Poll),
          polls w !! i = Some p ->
          (forall user, getUser_user (identity w) = Some user -> p_user_id p <> u_id user) ->
          polls after !! i = Some p).
Proof.
  intros pollId formData w after. subst after. split.
  - intros question options id user_id. run.
    destruct (getUser_error (identity w)); cbn; [appended; intros [H|[]]; discriminate H|].
    destruct (getUser_user (identity w)) as [[uid]|]; cbn;
      [|appended; intros [H|[]]; discriminate H].
    destruct (checkRateLimit _ _ _ _ _) as [[] table]; cbn;
      [|appended; intros [H|[]]; discriminate H].
    destruct (_ || _); cbn; [appended; intros [H|[]]; discriminate H|].
    destruct (db_faults w) as [|[e|] faults]; cbn; appended;
      (intros [H|[H|[]]]; [discriminate H|]); injection H as _ _ <- <-; now split.
  - intros i p Hi Hp. run.
    destruct (getUser_error (identity w)); cbn; [exact Hi|].
    destruct (getUser_user (identity w)) as [user|]; cbn; [|exact Hi].
    destruct (checkRateLimit _ _ _ _ _) as [[] table]; cbn; [|exact Hi].
    destruct (_ || _); cbn; [exact Hi|].
    destruct (db_faults w) as [|[e|] faults]; cbn; try exact Hi.
    all: apply lookup_map_fixed; [exact Hi|].
    all: assert (owned_by (u_id user) p = false) as ->
        by (apply String.eqb_neq, Hp; reflexivity).
    all: now rewrite andb_false_r.
Qed.

Lemma updatePoll_scoped_to_caller_witness :
  let bobs := {| p_id := "p1"; p_user_id := "bob"; p_question := "q";
                 p_options := ["a"; "b"]; p_created_at := 0 |} in
  let w := set_polls [bobs] (world0 (Some alice)) in
  polls (snd (updatePoll "p1" [("question", "mine"); ("options", "x"); ("options", "y")] w))
    !! 0%nat = Some bobs.
Proof.
  intros bobs w.
  destruct (updatePoll_scoped_to_caller
              "p1" [("question", "mine"); ("options", "x"); ("options", "y")] w)
    as [_ H].
  apply H; [reflexivity|]. intros user [= <-]. discriminate.
Defined.

(** C10. For an authenticated caller without a vote on the poll and any
    integer [optionIndex], negative or beyond the options of the poll,
    [submitVote] looks up the user and the existing votes, inserts the vote
    with that index and returns a null error, the data service answering both
    calls: no call reads the poll, and the index is compared with nothing. *)
Theorem submitVote_accepts_any_index :
  forall (pollId : string) (optionIndex : Z) (w : World) (user : User),
    getUser_user (identity w) = Some user ->
    (forall v, In v (votes w) -> ~ (v_poll_id v = pollId /\ v_user_id v = u_id user)) ->
    answers 2 w ->
    let result := fst (submitVote pollId optionIndex w) in
    let after := snd (submitVote pollId optionIndex w) in
    result = Returned {| data := tt; error := None |}
    /\ votes after
       = (votes w ++ [{| v_poll_id := pollId; v_user_id := u_id user;
                         v_option_index := optionIndex |}])%list
    /\ new_calls w after
       = [Auth_getUser; Votes_select pollId (u_id user);
          Votes_insert pollId (u_id user) optionIndex].
Proof.
  intros pollId optionIndex w user Huser Hnone Hans result after.
  assert (List.filter (vote_of pollId (u_id user)) (votes w) = []) as Hf.
  { apply filter_nil_iff. intros v Hv. specialize (Hnone v Hv).
    destruct (vote_of pollId (u_id user) v) eqn:E; [|reflexivity].
    apply vote_of_iff in E. contradiction. }
  subst result after. unfold answers in Hans. run. rewrite Huser. cbn.
  destruct (db_faults w) as [|f1 faults] eqn:Hd; cbn in *.
  - rewrite Hf. cbn. rewrite Hd. cbn. repeat split. appended.
  - apply Forall_cons in Hans as [-> Hans]. cbn. rewrite Hf. cbn.
    destruct faults as [|f2 faults]; cbn in *.
    + repeat split. appended.
    + apply Forall_cons in Hans as [-> _]. cbn. repeat split. appended.
Qed.

Lemma submitVote_accepts_any_index_witness :
  fst (submitVote "p1" (-7) (world0 (Some alice)))
  = Returned {| data := tt; error := None |}
  /\ votes (snd (submitVote "p1" (-7) (world0 (Some alice))))
     = [{| v_poll_id := "p1"; v_user_id := "alice"; v_option_index := -7 |}].
Proof.
  destruct (submitVote_accepts_any_index "p1" (-7) (world0 (Some alice)) alice eq_refl)
    as (Hr & Hv & _).
  - intros v [].
  - constructor.
  - split; [exact Hr | exact Hv].
Defined.

(** ** Login and registration *)

Section Auth.

Lemma validateToken_returns (token : option string) (w : World) :
  exists b, fst (validateToken token w) = Returned b.
Proof.
  change (validateToken token w) with (validateCsrfToken token w).
  rewrite validateCsrfToken_run.
  destruct (csrf_cookie w), token; cbn; eauto. destruct (_ || _); cbn; eauto.
Qed.


End Auth.




(** C7 fails on [login]: a form without an [email] entry makes
    [data.email] null, and [data.email.toLowerCase()] throws a TypeError
    before anything is validated; no result object is returned. *)
Theorem login_without_email_throws :
  forall (w : World),
    login (inl [("password", "secret")]) w
    = (Thrown (TypeError "Cannot read properties of null (reading 'toLowerCase')"), w).
Proof. intros w. reflexivity. Qed.

(** Apart from that case every action returns a result object: [login]
    when its submission has an email, and the eight other actions always. *)
Lemma actions_return_otherwise (a : Action) (w : World) :
  (forall formData, a = Login formData -> login_email formData <> None) ->
  exists e, fst (perform a w) = Returned e.
Proof.
  intros Hlogin. destruct a as [formData| | | | | | | | ]; unfold perform.
  1: { specialize (Hlogin formData eq_refl).
       destruct formData as [fd|p]; cbn in Hlogin; run;
         repeat (case_match; cbn in *; simplify_eq; eauto). }
  all: run; repeat (case_match; cbn in *; simplify_eq; eauto).
Qed.

(** ** The session gate *)

Section Gate.

Lemma searchParams_get_set (name value : string) (ps : list (string * string)) :
  searchParams_get name (searchParams_set name value ps) = Some value.
Proof.
  unfold searchParams_get. induction ps as [|[k v] ps IH]; cbn.
  - now rewrite String.eqb_refl.
  - destruct (String.eqb k name) eqn:E; cbn.
    + now rewrite String.eqb_refl.
    + now rewrite E.
Qed.

(** With the configuration missing nothing is checked. *)
Lemma updateSession_fails_open (env : Env) getSession (request : NextRequest) :
  Js.falsy (NEXT_PUBLIC_SUPABASE_URL env) || Js.falsy (NEXT_PUBLIC_SUPABASE_ANON_KEY env) = true ->
  updateSession env getSession request = NextResponse_next (cookies request) [].
Proof. intros H. unfold updateSession. now rewrite H. Qed.

End Gate.

(** C5, as the code has it.  With both environment variables of the
    identity service set, a request without a session whose path is
    protected is answered by a redirect to [/login] whose [redirectTo]
    parameter is the requested path; and a request to the root path is never
    redirected, whatever the configuration and the session. *)
Theorem session_gate_redirects :
  (forall (env : Env) getSession (request : NextRequest),
      Js.falsy (NEXT_PUBLIC_SUPABASE_URL env) = false ->
      Js.falsy (NEXT_PUBLIC_SUPABASE_ANON_KEY env) = false ->
      session (getSession (cookies request)) = None ->
      protected (pathname (nextUrl request)) = true ->
      exists url,
        route env getSession request = NextResponse_redirect url
        /\ pathname url = "/login"
        /\ searchParams_get "redirectTo" (searchParams url)
           = Some (pathname (nextUrl request)))
  /\ (forall (env : Env) getSession (request : NextRequest),
        pathname (nextUrl request) = "/" ->
        exists request_cookies response_cookies,
          route env getSession request
          = NextResponse_next request_cookies response_cookies).
Proof.
  split.
  - intros env getSession request Hurl Hkey Hnone Hprot.
    unfold protected in Hprot. rewrite !andb_true_iff in Hprot.
    destruct Hprot as ((((Hm & Hl) & Hr) & Ha) & Hroot).
    unfold route, middleware, updateSession.
    rewrite Hm, Hurl, Hkey, Hnone, Hl, Hr, Ha, Hroot. cbn.
    eexists. split; [reflexivity|]. split; [reflexivity|]. cbn.
    apply searchParams_get_set.
  - intros env getSession request Hroot.
    unfold route, middleware, updateSession. rewrite Hroot. cbn.
    destruct (_ || _); [eauto|].
    rewrite !andb_false_r.
    destruct (cookiesToSet _); eauto.
Qed.

Lemma session_gate_redirects_witness :
  let env := {| NEXT_PUBLIC_SUPABASE_URL := Some "https://project.supabase.co";
                NEXT_PUBLIC_SUPABASE_ANON_KEY := Some "anon";
                NODE_ENV := Some "production" |} in
  let anonymous := fun _ : list (string * string) =>
                     {| session := None; cookiesToSet := None |} in
  let request := {| nextUrl := {| pathname := "/polls/123"; searchParams := [] |};
                    cookies := [] |} in
  exists url,
    route env anonymous request = NextResponse_redirect url
    /\ pathname url = "/login"
    /\ searchParams_get "redirectTo" (searchParams url) = Some "/polls/123".
Proof.
  intros env anonymous request.
  destruct session_gate_redirects as [H _].
  apply (H env anonymous request); reflexivity.
Defined.

(** C5, as the spec words it, fails when the configuration is missing:
    the gate lets a request without a session through to a protected path. *)
Lemma session_gate_open_without_configuration :
  let env := {| NEXT_PUBLIC_SUPABASE_URL := None;
                NEXT_PUBLIC_SUPABASE_ANON_KEY := None;
                NODE_ENV := Some "production" |} in
  let anonymous := fun _ : list (string * string) =>
                     {| session := None; cookiesToSet := None |} in
  let request := {| nextUrl := {| pathname := "/polls/123"; searchParams := [] |};
                    cookies := [] |} in
  session (anonymous (cookies request)) = None
  /\ protected (pathname (nextUrl request)) = true
  /\ route env anonymous request = NextResponse_next [] [].
Proof. repeat split. Qed.

(** * Further properties *)

(** ** sanitizeInput, character by character *)

Section Escape.

Lemma string_append_assoc (r s t : string) : (r +:+ s) +:+ t = r +:+ (s +:+ t).
Proof.
  induction r as [|b r IH]; [reflexivity|].
  change (String b ((r +:+ s) +:+ t) = String b (r +:+ (s +:+ t))). now rewrite IH.
Qed.

Lemma replaceAll_append (c : ascii) (r s t : string) :
  Js.replaceAll c r (s +:+ t) = Js.replaceAll c r s +:+ Js.replaceAll c r t.
Proof.
  induction s as [|a s IH]; [reflexivity|].
  change (String a s +:+ t) with (String a (s +:+ t)). cbn [Js.replaceAll].
  destruct (Ascii.eqb a c); rewrite IH; [now rewrite string_append_assoc | reflexivity].
Qed.

Lemma escape_unit_nonempty (a : ascii) : escape_unit a <> "".
Proof. unfold escape_unit. repeat case_match; discriminate. Qed.

Lemma escape_each_nonempty (a : ascii) (s : string) : escape_each (String a s) <> "".
Proof.
  cbn. pose proof (escape_unit_nonempty a). destruct (escape_unit a); [contradiction | discriminate].
Qed.

(** The five replacements in a row rewrite each character once. *)
Lemma replacements_escape_each (s : string) :
  Js.replaceAll "'" "&#039;"
    (Js.replaceAll Js.dquote "&quot;"
       (Js.replaceAll ">" "&gt;"
          (Js.replaceAll "<" "&lt;"
             (Js.replaceAll "&" "&amp;" s))))
  = escape_each s.
Proof.
  induction s as [|a s IH]; [reflexivity|].
  cbn [Js.replaceAll escape_each]. unfold escape_unit.
  destruct (Ascii.eqb a "&") eqn:E1.
  { rewrite !replaceAll_append, IH. reflexivity. }
  cbn [Js.replaceAll]. destruct (Ascii.eqb a "<") eqn:E2.
  { rewrite !replaceAll_append, IH. reflexivity. }
  cbn [Js.replaceAll]. destruct (Ascii.eqb a ">") eqn:E3.
  { rewrite !replaceAll_append, IH. reflexivity. }
  cbn [Js.replaceAll]. destruct (Ascii.eqb a Js.dquote) eqn:E4.
  { rewrite !replaceAll_append, IH. reflexivity. }
  cbn [Js.replaceAll]. destruct (Ascii.eqb a "'") eqn:E5.
  { rewrite IH. reflexivity. }
  rewrite IH. reflexivity.
Qed.

Lemma occurrences_escape_unit (c a : ascii) :
  In c ["<"; ">"; Js.dquote; "'"]%char -> Js.occurrences c (escape_unit a) = 0%nat.
Proof.
  intros Hc. unfold escape_unit.
  destruct (Ascii.eqb a "&") eqn:E1;
    [cbn in Hc; destruct Hc as [<-|[<-|[<-|[<-|[]]]]]; reflexivity|].
  destruct (Ascii.eqb a "<") eqn:E2;
    [cbn in Hc; destruct Hc as [<-|[<-|[<-|[<-|[]]]]]; reflexivity|].
  destruct (Ascii.eqb a ">") eqn:E3;
    [cbn in Hc; destruct Hc as [<-|[<-|[<-|[<-|[]]]]]; reflexivity|].
  destruct (Ascii.eqb a Js.dquote) eqn:E4;
    [cbn in Hc; destruct Hc as [<-|[<-|[<-|[<-|[]]]]]; reflexivity|].
  destruct (Ascii.eqb a "'") eqn:E5;
    [cbn in Hc; destruct Hc as [<-|[<-|[<-|[<-|[]]]]]; reflexivity|].
  cbn in Hc. destruct Hc as [<-|[<-|[<-|[<-|[]]]]]; cbn;
    rewrite ?E2, ?E3, ?E4, ?E5; reflexivity.
Qed.

Lemma markup_free_escape_each (s : string) : markup_free (escape_each s) = true.
Proof.
  assert (forall c, In c ["<"; ">"; Js.dquote; "'"]%char ->
                    Js.occurrences c (escape_each s) = 0%nat) as H.
  { intros c Hc. induction s as [|a s IH]; [reflexivity|].
    cbn [escape_each]. now rewrite occurrences_append, occurrences_escape_unit, IH. }
  unfold markup_free, Js.contains. cbn.
  rewrite !H by (cbn; tauto). reflexivity.
Qed.

Lemma escape_each_inj (s t : string) : escape_each s = escape_each t -> s = t.
Proof.
  revert t. induction s as [|a s IH]; intros [|b t] H.
  - reflexivity.
  - symmetry in H. now apply escape_each_nonempty in H.
  - now apply escape_each_nonempty in H.
  - cbn [escape_each] in H. unfold escape_unit in H.
    repeat match type of H with
           | context [Ascii.eqb ?x ?y] =>
               let E := fresh "E" in
               destruct (Ascii.eqb x y) eqn:E;
               [apply Ascii.eqb_eq in E | apply Ascii.eqb_neq in E]
           end;
      cbn in H; simplify_eq; try (f_equal; now apply IH).
Qed.

End Escape.

(** [sanitizeInput] as one pass of [escape_unit]. *)
Lemma sanitizeInput_escape_each :
  forall x : string, sanitizeInput (Some x) = escape_each x.
Proof.
  intros [|a x]; [reflexivity|].
  unfold sanitizeInput. cbn [Js.falsy String.eqb]. apply replacements_escape_each.
Qed.

(** X1. [sanitizeInput] is one pass over the input: each character is
    replaced by its entity, or kept, independently of the others; the order of
    the five replacements never escapes a character twice. *)
Theorem sanitizeInput_one_pass :
  forall x : string, sanitizeInput (Some x) = escape_each x.
Proof.
  intros [|a x]; [reflexivity|].
  unfold sanitizeInput. cbn [Js.falsy String.eqb]. apply replacements_escape_each.
Qed.

(** No output of [sanitizeInput] holds an angle bracket or a quote. *)
Lemma sanitizeInput_no_markup :
  forall input : option string, markup_free (sanitizeInput input) = true.
Proof.
  intros [x|]; [|reflexivity].
  rewrite sanitizeInput_escape_each. apply markup_free_escape_each.
Qed.

(** X2. Whatever the input, null included, the output of [sanitizeInput]
    holds no angle bracket and no quote. *)
Theorem sanitizeInput_markup_free :
  forall input : option string, markup_free (sanitizeInput input) = true.
Proof.
  intros [x|]; [|reflexivity].
  rewrite sanitizeInput_escape_each. apply markup_free_escape_each.
Qed.

(** X3. [sanitizeInput] loses nothing: two different strings have different
    outputs. *)
Theorem sanitizeInput_injective :
  forall x y : string,
    x <> y -> sanitizeInput (Some x) <> sanitizeInput (Some y).
Proof.
  intros x y Hne E. rewrite !sanitizeInput_escape_each in E.
  now apply escape_each_inj in E.
Qed.

Lemma sanitizeInput_injective_witness :
  sanitizeInput (Some "a<b") <> sanitizeInput (Some "a&lt;b").
Proof. apply sanitizeInput_injective. discriminate. Defined.

(** ** Regular expressions: what the matcher accepts *)

Section RegexFacts.

Import Regex.

Lemma append_nil_l (s : string) : "" +:+ s = s.
Proof. reflexivity. Qed.

Lemma append_cons (a : ascii) (s t : string) : String a s +:+ t = String a (s +:+ t).
Proof. reflexivity. Qed.

Lemma matches_Void (s : string) : matches Void s = false.
Proof. induction s as [|a s IH]; [reflexivity | exact IH]. Qed.

Lemma matches_Alt (r1 r2 : regex) (s : string) :
  matches (Alt r1 r2) s = matches r1 s || matches r2 s.
Proof. revert r1 r2. induction s as [|a s IH]; intros; [reflexivity | apply IH]. Qed.

Lemma matches_Eps (s : string) : matches Eps s = true <-> s = "".
Proof.
  destruct s as [|a s]; cbn; [tauto|]. rewrite matches_Void. split; discriminate.
Qed.

(** A sequence matches when the string splits into two matching parts. *)
Lemma matches_Seq (r1 r2 : regex) (s : string) :
  matches (Seq r1 r2) s = true
  <-> exists s1 s2, s = s1 +:+ s2 /\ matches r1 s1 = true /\ matches r2 s2 = true.
Proof.
  revert r1 r2. induction s as [|a s IH]; intros r1 r2.
  - cbn. rewrite andb_true_iff. split.
    + intros [H1 H2]. exists "", "". auto.
    + intros (s1 & s2 & E & H1 & H2). destruct s1, s2; try discriminate. auto.
  - cbn [matches deriv]. destruct (nullable r1) eqn:N.
    + rewrite matches_Alt, orb_true_iff, IH. split.
      * intros [(s1 & s2 & -> & H1 & H2) | H].
        -- exists (String a s1), s2. auto.
        -- exists "", (String a s). auto.
      * intros (s1 & s2 & E & H1 & H2). destruct s1 as [|b s1].
        -- right. rewrite append_nil_l in E. subst s2. exact H2.
        -- left. rewrite append_cons in E. injection E as <- ->. exists s1, s2. auto.
    + rewrite IH. split.
      * intros (s1 & s2 & -> & H1 & H2). exists (String a s1), s2. auto.
      * intros (s1 & s2 & E & H1 & H2). destruct s1 as [|b s1].
        -- cbn in H1. congruence.
        -- rewrite append_cons in E. injection E as <- ->. exists s1, s2. auto.
Qed.

Lemma matches_Class (p : ascii -> bool) (s : string) :
  matches (Class p) s = true <-> exists a, s = String a "" /\ p a = true.
Proof.
  destruct s as [|a s]; cbn.
  - split; [discriminate | intros (a & E & _); discriminate].
  - destruct (p a) eqn:P.
    + rewrite matches_Eps. split.
      * intros ->. eauto.
      * intros (b & [= -> ->] & _). reflexivity.
    + rewrite matches_Void. split; [discriminate|].
      intros (b & [= -> ->] & Hb). congruence.
Qed.

Lemma matches_Star_Class (p : ascii -> bool) (s : string) :
  matches (Star (Class p)) s = every_unit p s.
Proof.
  induction s as [|a s IH]; [reflexivity|].
  cbn [matches deriv every_unit]. destruct (p a); cbn [andb].
  - rewrite <- IH. apply eq_true_iff_eq. rewrite matches_Seq. split.
    + intros (s1 & s2 & -> & H1 & H2). apply matches_Eps in H1. now subst s1.
    + intros H. exists "", s. auto.
  - apply not_true_is_false. rewrite matches_Seq.
    intros (s1 & s2 & _ & H1 & _). now rewrite matches_Void in H1.
Qed.

Lemma matches_Plus_Class (p : ascii -> bool) (s : string) :
  matches (Plus (Class p)) s = true <-> s <> "" /\ every_unit p s = true.
Proof.
  unfold Plus. rewrite matches_Seq. split.
  - intros (s1 & s2 & -> & H1 & H2). apply matches_Class in H1 as (a & -> & Ha).
    rewrite matches_Star_Class in H2. rewrite append_cons, append_nil_l. cbn.
    rewrite Ha, H2. split; [discriminate | reflexivity].
  - intros [Hne H]. destruct s as [|a s]; [contradiction|].
    cbn in H. apply andb_true_iff in H as [Ha Hs].
    exists (String a ""), s. split; [reflexivity|].
    split; [apply matches_Class; eauto | now rewrite matches_Star_Class].
Qed.

Lemma matches_Chr (c : ascii) (s : string) :
  matches (Chr c) s = true <-> s = String c "".
Proof.
  unfold Chr. rewrite matches_Class. split.
  - intros (a & -> & E). apply Ascii.eqb_eq in E. now subst.
  - intros ->. exists c. split; [reflexivity | apply Ascii.eqb_refl].
Qed.

Lemma matches_Lit (l s : string) : matches (Lit l) s = true <-> s = l.
Proof.
  revert s. induction l as [|c l IH]; intros s; cbn [Lit].
  - apply matches_Eps.
  - rewrite matches_Seq. split.
    + intros (s1 & s2 & -> & H1 & H2). apply matches_Chr in H1. apply IH in H2.
      subst. reflexivity.
    + intros ->. exists (String c ""), l. split; [reflexivity|].
      split; [now apply matches_Chr | now apply IH].
Qed.

Lemma matches_anything (s : string) : matches (Star (Class (fun _ => true))) s = true.
Proof. rewrite matches_Star_Class. induction s; [reflexivity | exact IHs]. Qed.

(** [r] followed by anything: some prefix of the string matches [r]. *)
Lemma matches_then_anything (r : regex) (s : string) :
  matches (Seq r (Star (Class (fun _ => true)))) s = true
  <-> exists s1 s2, s = s1 +:+ s2 /\ matches r s1 = true.
Proof.
  rewrite matches_Seq. split.
  - intros (s1 & s2 & E & H & _). eauto.
  - intros (s1 & s2 & E & H). exists s1, s2. auto using matches_anything.
Qed.

Lemma startsWith_iff (p s : string) :
  Js.startsWith p s = true <-> exists t, s = p +:+ t.
Proof.
  unfold Js.startsWith. revert s. induction p as [|c p IH]; intros s.
  - cbn. split; [eauto | destruct s; reflexivity].
  - destruct s as [|a s]; cbn.
    + split; [discriminate | intros (t & E); rewrite append_cons in E; discriminate].
    + destruct (Ascii.ascii_dec c a) as [->|Hne].
      * rewrite IH. split; intros (t & E); exists t.
        -- now rewrite E.
        -- rewrite append_cons in E. now injection E.
      * split; [discriminate|]. intros (t & E). rewrite append_cons in E.
        injection E as E _. congruence.
Qed.

Lemma append_nonempty (s t : string) : s <> "" -> s +:+ t <> "".
Proof. destruct s; [contradiction | discriminate]. Qed.

Lemma every_unit_append (p : ascii -> bool) (s t : string) :
  every_unit p (s +:+ t) = every_unit p s && every_unit p t.
Proof.
  induction s as [|a s IH]; [reflexivity|].
  change (String a s +:+ t) with (String a (s +:+ t)). cbn. now rewrite IH, andb_assoc.
Qed.

End RegexFacts.

(** X4. [validateEmail] answers the empty string or the sanitized input,
    and it accepts a string exactly when the string reads
    [local@domain.tld]: three non-empty parts without white space and without
    [@], joined by one [@] and a dot. *)
Theorem validateEmail_accepts :
  (forall email : option string,
      validateEmail email = ""
      \/ (validateEmail email = sanitizeInput email /\ Js.falsy email = false))
  /\ (forall s : string,
        validateEmail (Some s) <> ""
        <-> exists l d t,
            s = l +:+ "@" +:+ d +:+ "." +:+ t
            /\ l <> "" /\ d <> "" /\ t <> ""
            /\ every_unit email_unit l = true
            /\ every_unit email_unit d = true
            /\ every_unit email_unit t = true).
Proof.
  split.
  - intros [s|]; [|now left]. unfold validateEmail.
    destruct (Js.falsy (Some s)) eqn:F; [now left|].
    destruct (Regex.matches emailRegex s); cbn; [right | left]; auto.
  - intros s.
    assert (Regex.matches emailRegex s = true
            <-> exists l d t,
                s = l +:+ "@" +:+ d +:+ "." +:+ t
                /\ l <> "" /\ d <> "" /\ t <> ""
                /\ every_unit email_unit l = true
                /\ every_unit email_unit d = true
                /\ every_unit email_unit t = true) as Hshape.
    { unfold emailRegex. cbv zeta. fold email_unit. rewrite matches_Seq. split.
      - intros (l & s1 & -> & Hl & H). apply matches_Plus_Class in Hl as [Hl Hl'].
        apply matches_Seq in H as (at_ & s2 & -> & Hat & H). apply matches_Chr in Hat. subst at_.
        apply matches_Seq in H as (d & s3 & -> & Hd & H). apply matches_Plus_Class in Hd as [Hd Hd'].
        apply matches_Seq in H as (dot & t & -> & Hdot & Ht). apply matches_Chr in Hdot. subst dot.
        apply matches_Plus_Class in Ht as [Ht Ht'].
        exists l, d, t. repeat split; assumption.
      - intros (l & d & t & -> & Hl & Hd & Ht & Hl' & Hd' & Ht').
        exists l, ("@" +:+ d +:+ "." +:+ t). split; [reflexivity|].
        split; [now apply matches_Plus_Class|].
        apply matches_Seq. exists "@", (d +:+ "." +:+ t). split; [reflexivity|].
        split; [now apply matches_Chr|].
        apply matches_Seq. exists d, ("." +:+ t). split; [reflexivity|].
        split; [now apply matches_Plus_Class|].
        apply matches_Seq. exists ".", t. split; [reflexivity|].
        split; [now apply matches_Chr | now apply matches_Plus_Class]. }
    rewrite <- Hshape. unfold validateEmail.
    destruct s as [|a s]; [cbn; split; [contradiction | discriminate]|].
    cbn [Js.falsy String.eqb].
    destruct (Regex.matches emailRegex (String a s)); cbn [negb].
    + split; [reflexivity|]. intros _.
      rewrite sanitizeInput_escape_each. apply escape_each_nonempty.
    + split; [contradiction | discriminate].
Qed.

Lemma validateEmail_accepts_witness :
  validateEmail (Some "a@b.co") <> "".
Proof.
  destruct validateEmail_accepts as [_ H]. apply H.
  exists "a", "b", "co". repeat split; discriminate.
Defined.

(** ** The matcher and the gate *)

Section Matcher.

Import Regex.

Lemma matches_prefix_then_anything (p s : string) :
  matches (Seq (Lit p) (Star (Class (fun _ => true)))) s = true <-> exists t, s = p +:+ t.
Proof.
  rewrite matches_then_anything. split.
  - intros (s1 & s2 & -> & H). apply matches_Lit in H. subst. eauto.
  - intros (t & ->). exists p, t. split; [reflexivity | now apply matches_Lit].
Qed.

Lemma matches_favicon (s : string) :
  matches (Seq (Seq (Lit "favicon") (Seq Dot (Lit "ico"))) (Star (Class (fun _ => true)))) s = true
  <-> exists c t, is_dot c = true /\ s = "favicon" +:+ String c ("ico" +:+ t).
Proof.
  rewrite matches_then_anything. split.
  - intros (s1 & s2 & -> & H).
    apply matches_Seq in H as (f & r & -> & Hf & H). apply matches_Lit in Hf. subst f.
    apply matches_Seq in H as (d & i & -> & Hd & Hi). apply matches_Lit in Hi. subst i.
    apply matches_Class in Hd as (c & -> & Hc). exists c, s2. split; [exact Hc | reflexivity].
  - intros (c & t & Hc & ->). exists ("favicon" +:+ String c "ico"), t.
    split; [reflexivity|].
    apply matches_Seq. exists "favicon", (String c "ico"). split; [reflexivity|].
    split; [now apply matches_Lit|].
    apply matches_Seq. exists (String c ""), "ico". split; [reflexivity|].
    split; [apply matches_Class; eauto | now apply matches_Lit].
Qed.

Lemma matches_image_file (s : string) :
  matches (Seq (Star Dot)
             (Seq (Chr ".")
                (Alts [Lit "svg"; Lit "png"; Lit "jpg"; Lit "jpeg"; Lit "gif"; Lit "webp"]))) s
  = true
  <-> exists stem ext,
      In ext ["svg"; "png"; "jpg"; "jpeg"; "gif"; "webp"]
      /\ every_unit is_dot stem = true /\ s = stem +:+ "." +:+ ext.
Proof.
  rewrite matches_Seq. split.
  - intros (stem & r & -> & Hs & H). unfold Dot in Hs. rewrite matches_Star_Class in Hs.
    apply matches_Seq in H as (d & ext & -> & Hd & He). apply matches_Chr in Hd. subst d.
    exists stem, ext. split; [|split; [exact Hs | reflexivity]].
    cbn [Alts] in He. rewrite !matches_Alt, matches_Void, !orb_true_iff, !matches_Lit in He.
    destruct He as [->|[->|[->|[->|[->|[->|He]]]]]]; [cbn; auto 10 ..|discriminate].
  - intros (stem & ext & Hin & Hs & ->). exists stem, ("." +:+ ext). split; [reflexivity|].
    split; [unfold Dot; now rewrite matches_Star_Class|].
    apply matches_Seq. exists ".", ext. split; [reflexivity|].
    split; [now apply matches_Chr|].
    cbn [Alts]. rewrite !matches_Alt, matches_Void, !orb_true_iff, !matches_Lit.
    cbn in Hin. destruct Hin as [<-|[<-|[<-|[<-|[<-|[<-|[]]]]]]]; auto 10.
Qed.

Lemma matches_matcher_excluded (rest : string) :
  matches matcher_excluded rest = true
  <-> (exists p t, In p ["_next/static"; "_next/image"; "login"; "register"; "auth";
                         "api/public"] /\ rest = p +:+ t)
      \/ (exists c t, is_dot c = true /\ rest = "favicon" +:+ String c ("ico" +:+ t))
      \/ (exists stem ext,
             In ext ["svg"; "png"; "jpg"; "jpeg"; "gif"; "webp"]
             /\ every_unit is_dot stem = true /\ rest = stem +:+ "." +:+ ext).
Proof.
  unfold matcher_excluded. cbv zeta. cbn [Alts].
  rewrite !matches_Alt, matches_Void, orb_false_r, !orb_true_iff.
  rewrite matches_favicon, matches_image_file, !matches_prefix_then_anything.
  split.
  - intros [H|[H|[H|[H|[H|[H|[H|H]]]]]]]; try (destruct H as (t & ->)).
    + left. exists "_next/static", t. split; [cbn; auto 10 | reflexivity].
    + left. exists "_next/image", t. split; [cbn; auto 10 | reflexivity].
    + right. left. exact H.
    + left. exists "login", t. split; [cbn; auto 10 | reflexivity].
    + left. exists "register", t. split; [cbn; auto 10 | reflexivity].
    + left. exists "auth", t. split; [cbn; auto 10 | reflexivity].
    + left. exists "api/public", t. split; [cbn; auto 10 | reflexivity].
    + right. right. exact H.
  - intros [(p & t & Hin & ->)|[H|H]].
    + cbn in Hin. destruct Hin as [<-|[<-|[<-|[<-|[<-|[<-|[]]]]]]]; eauto 10.
    + auto 10.
    + auto 10.
Qed.

End Matcher.

(** The paths the matcher keeps from the middleware. *)
Lemma matcher_skips_iff :
  (forall path : string,
      config_matcher path = true -> exists rest, path = String "/" rest)
  /\ (forall rest : string,
        config_matcher (String "/" rest) = false
        <-> every_unit Regex.is_dot rest = false
            \/ (exists p t, In p ["_next/static"; "_next/image"; "login"; "register";
                                  "auth"; "api/public"] /\ rest = p +:+ t)
            \/ (exists c t, Regex.is_dot c = true
                            /\ rest = "favicon" +:+ String c ("ico" +:+ t))
            \/ (exists stem ext,
                   In ext ["svg"; "png"; "jpg"; "jpeg"; "gif"; "webp"]
                   /\ every_unit Regex.is_dot stem = true
                   /\ rest = stem +:+ "." +:+ ext)).
Proof.
  split.
  - intros [|a rest] H; [discriminate|].
    destruct (Ascii.ascii_dec a "/") as [->|Hne]; [eauto|].
    exfalso. destruct a as [[] [] [] [] [] [] [] []]; cbn in H; try discriminate.
    now apply Hne.
  - intros rest. cbn [config_matcher].
    rewrite andb_false_iff, negb_false_iff, matches_matcher_excluded.
    unfold Regex.Dot. rewrite matches_Star_Class. tauto.
Qed.

(** X5. The matcher sends to the middleware paths with a leading slash
    only.  For a path whose part after the slash holds no line terminator, as
    the path of a request does, the matcher skips it exactly when that part
    starts with [_next/static], [_next/image], [login], [register], [auth] or
    [api/public], starts with [favicon], one character and [ico], or ends in a
    dot and one of the six image extensions.  The tests are on prefixes, so
    [/loginx] is skipped as well. *)
Theorem config_matcher_skips :
  (forall path : string,
      config_matcher path = true -> exists rest, path = String "/" rest)
  /\ (forall rest : string,
        every_unit Regex.is_dot rest = true ->
        (config_matcher (String "/" rest) = false
         <-> (exists p t, In p ["_next/static"; "_next/image"; "login"; "register";
                                "auth"; "api/public"] /\ rest = p +:+ t)
             \/ (exists c t, rest = "favicon" +:+ String c ("ico" +:+ t))
             \/ (exists stem ext,
                    In ext ["svg"; "png"; "jpg"; "jpeg"; "gif"; "webp"]
                    /\ rest = stem +:+ "." +:+ ext))).
Proof.
  destruct matcher_skips_iff as [Hslash Hskip]. split; [exact Hslash|].
  intros rest Hline. rewrite Hskip. split.
  - intros [Hno|[Hp|[(c & t & _ & ->)|(stem & ext & Hext & _ & ->)]]].
    + congruence.
    + now left.
    + right. left. eauto.
    + right. right. eauto.
  - intros [Hp|[(c & t & ->)|(stem & ext & Hext & ->)]].
    + right. now left.
    + right. right. left. exists c, t. split; [|reflexivity].
      rewrite every_unit_append in Hline. apply andb_prop in Hline as [_ Hline].
      cbn [every_unit] in Hline. now apply andb_prop in Hline as [Hc _].
    + right. right. right. exists stem, ext. split; [exact Hext|]. split; [|reflexivity].
      rewrite every_unit_append in Hline. now apply andb_prop in Hline as [Hs _].
Qed.

Lemma config_matcher_skips_witness :
  config_matcher "/loginx" = false /\ config_matcher "/a/b.png" = false
  /\ config_matcher "/polls" = true.
Proof.
  destruct config_matcher_skips as [_ H]. split; [|split].
  - apply (H "loginx" eq_refl). left. exists "login", "x". cbn. auto.
  - apply (H "a/b.png" eq_refl). right. right. exists "a/b", "png". cbn. auto.
  - reflexivity.
Defined.

(** The prefix tests of [updateSession] follow from the matcher. *)
Lemma protected_iff_matched :
  forall path : string,
    protected path = config_matcher path && negb (String.eqb path "/").
Proof.
  intros path. unfold protected.
  destruct (config_matcher path) eqn:Hm; [|reflexivity].
  destruct matcher_skips_iff as [Hslash Hskip].
  destruct (Hslash path Hm) as (rest & ->).
  assert (forall p, In p ["login"; "register"; "auth"] ->
                    Js.startsWith (String "/" p) (String "/" rest) = false) as Hno.
  { intros p Hp. apply not_true_is_false. intros H.
    apply startsWith_iff in H as (t & E). rewrite append_cons in E. injection E as ->.
    assert (config_matcher (String "/" (p +:+ t)) = false) as Hf; [|congruence].
    apply Hskip. right. left. exists p, t. split; [|reflexivity].
    cbn in Hp |- *. destruct Hp as [<-|[<-|[<-|[]]]]; auto 10. }
  rewrite (Hno "login"), (Hno "register"), (Hno "auth") by (cbn; auto).
  reflexivity.
Qed.

(** X6. On a path the matcher sends to the middleware, the three prefix
    tests of [updateSession] never hold: a path is protected exactly when the
    matcher lets it in and it is not the root. *)
Theorem protected_by_matcher_alone :
  forall path : string,
    protected path = config_matcher path && negb (String.eqb path "/").
Proof.
  intros path. unfold protected.
  destruct (config_matcher path) eqn:Hm; [|reflexivity].
  destruct matcher_skips_iff as [Hslash Hskip].
  destruct (Hslash path Hm) as (rest & ->).
  assert (forall p, In p ["login"; "register"; "auth"] ->
                    Js.startsWith (String "/" p) (String "/" rest) = false) as Hno.
  { intros p Hp. apply not_true_is_false. intros H.
    apply startsWith_iff in H as (t & E). rewrite append_cons in E. injection E as ->.
    assert (config_matcher (String "/" (p +:+ t)) = false) as Hf; [|congruence].
    apply Hskip. right. left. exists p, t. split; [|reflexivity].
    cbn in Hp |- *. destruct Hp as [<-|[<-|[<-|[]]]]; auto 10. }
  rewrite (Hno "login"), (Hno "register"), (Hno "auth") by (cbn; auto).
  reflexivity.
Qed.

(** X7. The gate redirects in one case only: both environment variables
    are set, the identity service reports no session, the matcher lets the
    path in and the path is not the root.  A request with a session is never
    redirected. *)
Theorem route_redirects_exactly :
  forall (env : Env) getSession (request : NextRequest),
    (exists url, route env getSession request = NextResponse_redirect url)
    <-> Js.falsy (NEXT_PUBLIC_SUPABASE_URL env) = false
        /\ Js.falsy (NEXT_PUBLIC_SUPABASE_ANON_KEY env) = false
        /\ session (getSession (cookies request)) = None
        /\ config_matcher (pathname (nextUrl request)) = true
        /\ pathname (nextUrl request) <> "/".
Proof.
  intros env getSession request.
  pose proof (protected_iff_matched (pathname (nextUrl request))) as Hp.
  unfold protected in Hp. unfold route, middleware, updateSession.
  destruct (config_matcher (pathname (nextUrl request))) eqn:Hm.
  - destruct (Js.falsy (NEXT_PUBLIC_SUPABASE_URL env)); cbn [orb].
    { split; [intros (url & H); discriminate | intros (H & _); discriminate]. }
    destruct (Js.falsy (NEXT_PUBLIC_SUPABASE_ANON_KEY env)); cbn [orb].
    { split; [intros (url & H); discriminate | intros (_ & H & _); discriminate]. }
    destruct (session (getSession (cookies request))) as [s|]; cbn [andb].
    { split; [|intros (_ & _ & H & _); discriminate].
      intros (url & H). destruct (cookiesToSet _); discriminate. }
    cbn [andb] in Hp. rewrite Hp.
    destruct (String.eqb (pathname (nextUrl request)) "/") eqn:Hroot; cbn [negb].
    + apply String.eqb_eq in Hroot. split; [|intros (_ & _ & _ & _ & H); contradiction].
      intros (url & H). destruct (cookiesToSet _); discriminate.
    + apply String.eqb_neq in Hroot. split; [auto 6 | eauto].
  - split; [intros (url & H); discriminate | intros (_ & _ & _ & H & _); discriminate].
Qed.

Lemma route_redirects_exactly_witness :
  let env := {| NEXT_PUBLIC_SUPABASE_URL := Some "https://project.supabase.co";
                NEXT_PUBLIC_SUPABASE_ANON_KEY := Some "anon";
                NODE_ENV := None |} in
  let anonymous := fun _ : list (string * string) =>
                     {| session := None; cookiesToSet := None |} in
  exists url,
    route env anonymous {| nextUrl := {| pathname := "/polls"; searchParams := [] |};
                           cookies := [] |}
    = NextResponse_redirect url.
Proof.
  intros env anonymous. apply route_redirects_exactly.
  repeat split; discriminate.
Defined.

Section RedirectUrl.



End RedirectUrl.



(** X9. Every cookie the gate writes on a response is [httpOnly], has
    [sameSite] lax and is [secure] exactly in production, whatever options
    the identity client asked for; the names and values are the ones the
    client handed over, in order. *)
Theorem gate_cookies_hardened :
  forall (env : Env) getSession (request : NextRequest) request_cookies response_cookies,
    route env getSession request = NextResponse_next request_cookies response_cookies ->
    Forall (fun c => rc_httpOnly c = true
                     /\ rc_sameSite c = "lax"
                     /\ (rc_secure c = true <-> NODE_ENV env = Some "production"))
           response_cookies
    /\ (response_cookies = []
        \/ exists cs, cookiesToSet (getSession (cookies request)) = Some cs
                      /\ map (fun c => (rc_name c, rc_value c)) response_cookies
                         = map (fun c => (c_name c, c_value c)) cs).
Proof.
  intros env getSession request rq rs. unfold route, middleware, updateSession.
  destruct (config_matcher _); [|intros [= <- <-]; split; [constructor | now left]].
  destruct (_ || _); [intros [= <- <-]; split; [constructor | now left]|].
  destruct (_ && _); [discriminate|].
  destruct (cookiesToSet (getSession (cookies request))) as [cs|];
    [|intros [= <- <-]; split; [constructor | now left]].
  intros [= <- <-]. split.
  - apply Forall_map. apply Forall_forall. intros c _. cbn.
    split; [reflexivity|]. split; [reflexivity|].
    destruct (NODE_ENV env) as [v|]; [|split; discriminate].
    rewrite String.eqb_eq. split; [now intros -> | now intros [= ->]].
  - right. exists cs. split; [reflexivity|]. rewrite map_map. reflexivity.
Qed.

Lemma gate_cookies_hardened_witness :
  let env := {| NEXT_PUBLIC_SUPABASE_URL := Some "https://project.supabase.co";
                NEXT_PUBLIC_SUPABASE_ANON_KEY := Some "anon";
                NODE_ENV := Some "production" |} in
  let refreshed := fun _ : list (string * string) =>
                     {| session := Some {| s_user := alice |};
                        cookiesToSet := Some [{| c_name := "sb-token"; c_value := "t";
                                                 c_options := [("httpOnly", "false")] |}] |} in
  let request := {| nextUrl := {| pathname := "/polls"; searchParams := [] |};
                    cookies := [] |} in
  Forall (fun c => rc_httpOnly c = true
                   /\ rc_sameSite c = "lax"
                   /\ (rc_secure c = true <-> Some "production" = Some "production"))
         [{| rc_name := "sb-token"; rc_value := "t"; rc_options := [("httpOnly", "false")];
             rc_secure := true; rc_sameSite := "lax"; rc_httpOnly := true |}].
Proof.
  intros env refreshed request.
  destruct (gate_cookies_hardened env refreshed request _ _ eq_refl) as [H _].
  exact H.
Defined.

(** ** The rate limiter over a window *)

Section Window.

Variables (key : string) (maxAttempts windowMs : Z).
Hypothesis own_key : inherited key = false.

Lemma checkRateLimit_at_counts (ts : list Z) :
  forall (rl : gmap string RateEntry) (e : RateEntry),
    rl !! key = Some e ->
    Forall (fun t => t <= resetTime e) ts ->
    fst (checkRateLimit_at ts key maxAttempts windowMs rl)
    = map (fun i => count e + 1 + Z.of_nat i <=? maxAttempts) (seq 0 (length ts)).
Proof.
  induction ts as [|t ts IH]; intros rl e Hk Hts; [reflexivity|].
  apply Forall_cons in Hts as [Ht Hts].
  cbn [checkRateLimit_at].
  rewrite (checkRateLimit_counts key maxAttempts windowMs own_key t rl e Hk Ht).
  specialize (IH (<[key := {| count := count e + 1; resetTime := resetTime e |}]> rl)
                 {| count := count e + 1; resetTime := resetTime e |}
                 (lookup_insert_eq _ _ _) Hts).
  destruct (checkRateLimit_at ts key maxAttempts windowMs _) as [oks final].
  cbn in IH |- *. rewrite IH, Z.add_0_r. f_equal.
  rewrite <- seq_shift, map_map. apply map_ext. intros i. f_equal. lia.
Qed.

Lemma admitted_count (n : nat) :
  length (List.filter (fun i => Z.of_nat i <? maxAttempts) (seq 0 n))
  = Nat.min n (Z.to_nat maxAttempts).
Proof.
  induction n as [|n IH]; [reflexivity|].
  rewrite seq_S, List.filter_app, length_app, IH. cbn [List.filter Nat.add].
  destruct (Z.of_nat n <? maxAttempts) eqn:E; cbn [length].
  - apply Z.ltb_lt in E. lia.
  - apply Z.ltb_ge in E. lia.
Qed.

End Window.

(** X10. In one window the limiter admits exactly the first [maxAttempts]
    calls: after a call that opens a window, and with every later call no
    later than the end of that window, call number [i] (from 0) is admitted
    when [i < maxAttempts] and refused otherwise, so the admitted calls of
    [n] are [min n maxAttempts]. *)
Theorem checkRateLimit_window_budget :
  forall (key : string) (maxAttempts windowMs : Z) (rl : gmap string RateEntry)
         (t1 : Z) (ts : list Z),
    inherited key = false ->
    (rl !! key = None \/ exists e, rl !! key = Some e /\ resetTime e < t1) ->
    Forall (fun t => t <= t1 + windowMs) ts ->
    let verdicts := fst (checkRateLimit_at (t1 :: ts) key maxAttempts windowMs rl) in
    verdicts = map (fun i => Z.of_nat i <? maxAttempts) (seq 0 (S (length ts)))
    /\ length (List.filter (fun ok => ok) verdicts)
       = Nat.min (S (length ts)) (Z.to_nat maxAttempts).
Proof.
  intros key maxAttempts windowMs rl t1 ts Hown Hopen Hts verdicts.
  assert (verdicts = map (fun i => Z.of_nat i <? maxAttempts) (seq 0 (S (length ts)))) as E.
  { subst verdicts. cbn [checkRateLimit_at].
    rewrite (checkRateLimit_opens key maxAttempts windowMs Hown t1 rl Hopen).
    pose proof (checkRateLimit_at_counts key maxAttempts windowMs Hown ts
                  (<[key := {| count := 1; resetTime := t1 + windowMs |}]> rl)
                  {| count := 1; resetTime := t1 + windowMs |}
                  (lookup_insert_eq _ _ _) Hts) as H.
    destruct (checkRateLimit_at ts key maxAttempts windowMs _) as [oks final].
    cbn in H |- *. rewrite H. f_equal.
    - apply eq_true_iff_eq. rewrite Z.leb_le, Z.ltb_lt. lia.
    - rewrite <- seq_shift, map_map. apply map_ext. intros i.
      apply eq_true_iff_eq. rewrite Z.leb_le, Z.ltb_lt. lia. }
  split; [exact E|]. rewrite E.
  rewrite <- (admitted_count maxAttempts (S (length ts))).
  generalize (seq 0 (S (length ts))). intros l.
  induction l as [|i l IH]; [reflexivity|].
  cbn. destruct (Z.of_nat i <? maxAttempts); cbn; now rewrite IH.
Qed.

Lemma checkRateLimit_window_budget_witness :
  length (List.filter (fun ok => ok)
            (fst (checkRateLimit_at [0; 1; 2; 3; 4; 5; 6; 7] "create_poll_alice" 5 60000 ∅)))
  = 5%nat.
Proof.
  destruct (checkRateLimit_window_budget "create_poll_alice" 5 60000 ∅ 0 [1; 2; 3; 4; 5; 6; 7])
    as [_ H].
  - reflexivity.
  - left. apply lookup_empty.
  - repeat constructor; lia.
  - exact H.
Defined.

(** The verdict reads the table at the key only. *)
Lemma checkRateLimit_verdict (now : Z) (key : string) (maxAttempts windowMs : Z)
    (rl : gmap string RateEntry) :
  fst (checkRateLimit now key maxAttempts windowMs rl)
  = if inherited key then false
    else match rl !! key with
         | Some e => if resetTime e <? now then 1 <=? maxAttempts
                     else count e + 1 <=? maxAttempts
         | None => 1 <=? maxAttempts
         end.
Proof.
  unfold checkRateLimit. destruct (inherited key); [reflexivity|]. cbn [fst].
  destruct (rl !! key) as [e|] eqn:Hk; [destruct (resetTime e <? now)|].
  - now rewrite alter_insert_eq, lookup_insert_eq.
  - now rewrite (alter_alt_Some _ _ _ _ Hk), lookup_insert_eq.
  - now rewrite alter_insert_eq, lookup_insert_eq.
Qed.

(** X11. Keys do not share a budget: a call for one key leaves the verdict of
    the next call for any other key as it would have been. *)
Theorem checkRateLimit_keys_independent :
  forall (key other : string) (now now' maxAttempts maxAttempts' windowMs windowMs' : Z)
         (rl : gmap string RateEntry),
    other <> key ->
    fst (checkRateLimit now key maxAttempts windowMs
           (snd (checkRateLimit now' other maxAttempts' windowMs' rl)))
    = fst (checkRateLimit now key maxAttempts windowMs rl).
Proof.
  intros key other now now' maxAttempts maxAttempts' windowMs windowMs' rl Hne.
  assert (snd (checkRateLimit now' other maxAttempts' windowMs' rl) !! key = rl !! key) as Hk.
  { unfold checkRateLimit. destruct (inherited other); [reflexivity|]. cbn [snd].
    rewrite lookup_alter_ne by exact Hne.
    destruct (rl !! other) as [e|]; [destruct (resetTime e <? now')|];
      rewrite ?lookup_insert_ne by exact Hne; reflexivity. }
  now rewrite !checkRateLimit_verdict, Hk.
Qed.

Lemma checkRateLimit_keys_independent_witness :
  fst (checkRateLimit 5 "login_a@b.co" 5 60000
         (snd (checkRateLimit 1 "login_c@d.co" 5 60000 ∅)))
  = fst (checkRateLimit 5 "login_a@b.co" 5 60000 ∅).
Proof. apply checkRateLimit_keys_independent. discriminate. Defined.

(** ** The life of a CSRF token *)

Section TokenLife.

Lemma generateAndSetCsrfToken_run (w : World) :
  generateAndSetCsrfToken w
  = (Returned (entropy w (length (calls w))),
     set_csrf_cookie (Some (entropy w (length (calls w))))
       (set_calls ((calls w ++ [Crypto_randomBytes 32])
                     ++ [Cookies_set "csrf_token" (entropy w (length (calls w)))]) w)).
Proof. reflexivity. Qed.

(** The verdict of a validation, as a boolean test on the cookie. *)
Lemma validateToken_verdict (token : option string) (w : World) :
  fst (validateToken token w) = Returned true
  <-> exists t, token = Some t /\ csrf_cookie w = Some t /\ t <> "".
Proof.
  change (validateToken token w) with (validateCsrfToken token w).
  rewrite validateCsrfToken_run.
  destruct (csrf_cookie w) as [s|], token as [t|]; cbn;
    try (split; [discriminate | intros (t' & H1 & H2 & _); discriminate]).
  destruct (String.eqb s "") eqn:Es, (String.eqb t "") eqn:Et; cbn.
  1-3: split; [discriminate|]; intros (t' & [= <-] & [= ->] & Hne);
    rewrite ?String.eqb_eq in *; congruence.
  apply String.eqb_neq in Es, Et.
  destruct (length (Buffer_from t) =? length (Buffer_from s))%nat eqn:Hlen; cbn.
  - apply Nat.eqb_eq in Hlen. split.
    + intros [= H]. apply (ct_equal_iff _ _ Hlen), Buffer_from_inj in H. subst. eauto.
    + intros (t' & [= <-] & [= ->] & _). f_equal. now apply ct_equal_iff.
  - apply Nat.eqb_neq in Hlen. split; [discriminate|].
    intros (t' & [= <-] & [= ->] & _). now contradiction Hlen.
Qed.

Lemma validateToken_returns_bool (token : option string) (w : World) :
  fst (validateToken token w) = Returned true \/ fst (validateToken token w) = Returned false.
Proof.
  destruct (validateToken_returns token w) as ([] & ->); auto.
Qed.

End TokenLife.

(** X12. A token issued by the route handler (or by
    [generateAndSetCsrfToken]) is the one stored in the cookie: it validates
    right after, and no other token does, the token stored before
    included. *)
Theorem csrf_issue_then_validate :
  forall (w : World),
    let issued := entropy w (length (calls w)) in
    let after := snd (GET w) in
    fst (GET w) = Returned {| json_token := issued |}
    /\ generateAndSetCsrfToken w = (Returned issued, after)
    /\ csrf_cookie after = Some issued
    /\ (issued <> "" -> fst (validateToken (Some issued) after) = Returned true)
    /\ (forall other, other <> issued ->
          fst (validateToken (Some other) after) = Returned false).
Proof.
  intros w issued after. subst issued after.
  split; [reflexivity|]. split; [reflexivity|]. split; [reflexivity|]. split.
  - intros Hne. apply validateToken_verdict. eexists.
    split; [reflexivity|]. split; [reflexivity | exact Hne].
  - intros other Hne.
    destruct (validateToken_returns_bool (Some other) (snd (GET w))) as [H|H]; [|exact H].
    apply validateToken_verdict in H as (t & [= <-] & [= E] & _). congruence.
Qed.

Lemma csrf_issue_then_validate_witness :
  fst (validateToken (Some "00") (snd (GET (world0 None)))) = Returned true
  /\ fst (validateToken (Some "01") (snd (GET (world0 None)))) = Returned false.
Proof.
  destruct (csrf_issue_then_validate (world0 None)) as (_ & _ & _ & Hok & Hother). split.
  - apply Hok. discriminate.
  - apply Hother. discriminate.
Defined.

(** X13. [getCsrfMetaTag] draws a token and writes it into the tag, and that
    is all: no cookie is set.  So the token of the tag validates only if the
    cookie already held that very token; with no cookie stored it never
    does. *)
Theorem meta_tag_token_is_not_stored :
  forall (w : World),
    let drawn := entropy w (length (calls w)) in
    let after := snd (getCsrfMetaTag w) in
    fst (getCsrfMetaTag w)
    = Returned {| html := "<meta name=" +:+ String Js.dquote "csrf-token"
                          +:+ String Js.dquote " content="
                          +:+ String Js.dquote drawn +:+ String Js.dquote " />" |}
    /\ new_calls w after = [Crypto_randomBytes 32]
    /\ csrf_cookie after = csrf_cookie w
    /\ (fst (validateToken (Some drawn) after) = Returned true
        <-> csrf_cookie w = Some drawn /\ drawn <> "")
    /\ (csrf_cookie w = None -> fst (validateToken (Some drawn) after) = Returned false).
Proof.
  intros w drawn after. subst drawn after.
  split; [reflexivity|]. split; [now appended|]. split; [reflexivity|].
  assert (fst (validateToken (Some (entropy w (length (calls w)))) (snd (getCsrfMetaTag w)))
          = Returned true
          <-> csrf_cookie w = Some (entropy w (length (calls w)))
              /\ entropy w (length (calls w)) <> "") as Hiff.
  { rewrite validateToken_verdict. cbn. split.
    - intros (t & [= <-] & E & Hne). auto.
    - intros [E Hne]. eauto. }
  split; [exact Hiff|]. intros Hnone.
  destruct (validateToken_returns_bool (Some (entropy w (length (calls w))))
              (snd (getCsrfMetaTag w))) as [H|H]; [|exact H].
  apply Hiff in H as [E _]. congruence.
Qed.

Lemma meta_tag_token_is_not_stored_witness :
  fst (validateToken (Some "00") (snd (getCsrfMetaTag (world0 None)))) = Returned false.
Proof.
  destruct (meta_tag_token_is_not_stored (world0 None)) as (_ & _ & _ & _ & H).
  apply H. reflexivity.
Defined.

(** [csrfProtection] accepts a form exactly when its first
    [csrf_token] entry is non-empty and equal to the cookie; a form without
    the entry is refused. *)
Lemma csrfProtection_needs_the_token :
  forall (formData : FormData) (w : World),
    (fst (csrfProtection formData w) = Returned true
     <-> exists t, fd_get "csrf_token" formData = Some t
                   /\ csrf_cookie w = Some t /\ t <> "")
    /\ (fd_has "csrf_token" formData = false ->
        fst (csrfProtection formData w) = Returned false).
Proof.
  intros formData w.
  change (csrfProtection formData w) with (validateToken (fd_get "csrf_token" formData) w).
  split; [apply validateToken_verdict|].
  intros Hno.
  assert (fd_get "csrf_token" formData = None) as ->.
  { unfold fd_get, fd_has in *. induction formData as [|[k v] fd IH]; [reflexivity|].
    cbn in *. destruct (String.eqb k "csrf_token"); [discriminate | now apply IH]. }
  change (validateToken None w) with (validateCsrfToken None w).
  rewrite validateCsrfToken_run. destruct (csrf_cookie w); reflexivity.
Qed.

Lemma csrfProtection_needs_the_token_witness :
  fst (csrfProtection [("email", "a@b.co")] (set_csrf_cookie (Some "abcd") (world0 None)))
  = Returned false.
Proof.
  destruct (csrfProtection_needs_the_token
              [("email", "a@b.co")] (set_csrf_cookie (Some "abcd") (world0 None))) as [_ H].
  apply H. reflexivity.
Defined.

(** ** Login and registration, step by step *)

(** X14. Whatever the identity service answers, an error that [login] or
    [register] returns is one of a few fixed messages: the text of a service
    error never reaches the caller. *)
Theorem auth_errors_are_generic :
  (forall (formData : FormData + LoginFormData) (w : World) (r : Result unit),
      fst (login formData w) = Returned r -> In (error r) login_errors)
  /\ (forall (formData : FormData + RegisterFormData) (w : World) (r : Result unit),
        fst (register formData w) = Returned r -> In (error r) register_errors).
Proof.
  split.
  - intros [fd|p] w r; unfold login_errors; run;
      repeat (case_match; cbn in *; simplify_eq; auto 10);
      intros Hr; simplify_eq; cbn; auto 10.
  - intros [fd|p] w r; unfold register_errors; run;
      repeat (case_match; cbn in *; simplify_eq; auto 12);
      intros Hr; simplify_eq; cbn; auto 12.
Qed.

Lemma auth_errors_are_generic_witness :
  let refusing :=
    {| getUser_user := None; getUser_error := None;
       signIn_error := fun _ _ => Some "Email not confirmed";
       signUp_error := fun _ _ _ => Some "User already registered";
       signOut_error := None |} in
  let w :=
    {| clock := 1000; rateLimits := ∅; csrf_cookie := None;
       entropy := fun _ => "00"; identity := refusing; db_faults := [];
       db_ids := fun n => "poll-" +:+ pretty n; polls := []; votes := []; calls := [] |} in
  let credentials : FormData + LoginFormData :=
    inl [("email", "a@b.co"); ("password", "pw")] in
  let account : FormData + RegisterFormData :=
    inl [("name", "Al"); ("email", "a@b.co"); ("password", "pw")] in
  (fst (login credentials w)
   = Returned {| data := tt; error := Some "Invalid email or password" |}
   /\ In (Some "Invalid email or password") login_errors)
  /\ (fst (register account w)
      = Returned {| data := tt;
                    error := Some "Registration failed. Please try again with a different email." |}
      /\ In (Some "Registration failed. Please try again with a different email.")
            register_errors).
Proof.
  intros refusing w credentials account.
  destruct auth_errors_are_generic as [Hlogin Hregister]. split.
  - split; [reflexivity|]. exact (Hlogin credentials w _ eq_refl).
  - split; [reflexivity|]. exact (Hregister account w _ eq_refl).
Defined.

(** X15. The identity service receives the validated email and the password
    exactly as submitted: [login] passes [validateEmail(email)], which is not
    empty, and the password untouched; [register] does the same and passes the
    sanitized name, which has two characters at least. *)
Theorem credentials_are_forwarded :
  (forall (formData : FormData + LoginFormData) (w : World) e p,
      In (Auth_signInWithPassword e p) (new_calls w (snd (login formData w))) ->
      e = validateEmail (login_email formData) /\ e <> ""
      /\ p = login_password formData)
  /\ (forall (formData : FormData + RegisterFormData) (w : World) e p n,
        In (Auth_signUp e p n) (new_calls w (snd (register formData w))) ->
        e = validateEmail (register_email formData) /\ e <> ""
        /\ p = register_password formData
        /\ n = sanitizeInput (register_name formData)
        /\ (2 <= String.length n)%nat).
Proof.
  split.
  - intros [fd|p0] w e p; run;
      repeat (case_match; cbn in *; simplify_eq);
      appended; cbn; intros Hin;
      repeat (destruct Hin as [Hin|Hin]; simplify_eq); try contradiction;
      (split; [reflexivity|]); (split; [|reflexivity]);
      match goal with H : (_ =? "")%string = false |- _ => now apply String.eqb_neq in H end.
  - intros [fd|p0] w e p n; run;
      repeat (case_match; cbn in *; simplify_eq);
      appended; cbn; intros Hin;
      repeat (destruct Hin as [Hin|Hin]; simplify_eq); try contradiction;
      repeat match goal with
             | H : _ || _ = false |- _ => apply orb_false_iff in H as [? ?]
             | H : (_ =? "")%string = false |- _ => apply String.eqb_neq in H
             | H : (_ <? _)%nat = false |- _ => apply Nat.ltb_ge in H
             | H : (_ <=? _)%nat = false |- _ => apply Nat.leb_gt in H
             end;
      repeat split; try assumption; try lia.
Qed.

Lemma credentials_are_forwarded_witness :
  let formData : FormData + LoginFormData :=
    inl [("email", "a@b.co"); ("password", "<p&ss>")] in
  "a@b.co" = validateEmail (login_email formData) /\ "a@b.co" <> ""
  /\ Some "<p&ss>" = login_password formData.
Proof.
  intros formData. destruct credentials_are_forwarded as [H _].
  apply (H formData (world0 None)). vm_compute. left. reflexivity.
Defined.

(** X16. [login] and [register] rotate the CSRF token on success and only
    then.  When the result has a null error the last two calls are a draw of
    32 random bytes and the setting of the [csrf_token] cookie to the token of
    that very draw, which is the stored token from then on.  When the result
    is an error, or an exception, the cookie is the one from before, nothing
    is drawn and no cookie is set. *)
Theorem csrf_token_rotates_on_success :
  (forall (formData : FormData + LoginFormData) (w : World),
      let after := snd (login formData w) in
      match fst (login formData w) with
      | Returned {| data := _; error := None |} =>
          exists earlier : list Call,
            calls after
            = (earlier ++ [Crypto_randomBytes 32;
                           Cookies_set "csrf_token" (entropy w (length earlier))])%list
            /\ csrf_cookie after = Some (entropy w (length earlier))
      | _ =>
          csrf_cookie after = csrf_cookie w
          /\ forall c, In c (new_calls w after) ->
                       c <> Crypto_randomBytes 32
                       /\ forall name value, c <> Cookies_set name value
      end)
  /\ (forall (formData : FormData + RegisterFormData) (w : World),
        let after := snd (register formData w) in
        match fst (register formData w) with
        | Returned {| data := _; error := None |} =>
            exists earlier : list Call,
              calls after
              = (earlier ++ [Crypto_randomBytes 32;
                             Cookies_set "csrf_token" (entropy w (length earlier))])%list
              /\ csrf_cookie after = Some (entropy w (length earlier))
        | _ =>
            csrf_cookie after = csrf_cookie w
            /\ forall c, In c (new_calls w after) ->
                         c <> Crypto_randomBytes 32
                         /\ forall name value, c <> Cookies_set name value
        end).
Proof.
  assert (forall (l : list Call) (x y : Call), ((l ++ [x]) ++ [y] = l ++ [x; y])%list) as Hsnoc.
  { intros l x y. now rewrite <- app_assoc. }
  split.
  - intros [fd|p] w; run;
      repeat (case_match; cbn in *; simplify_eq; try done);
      try (eexists; split; [apply Hsnoc | reflexivity]);
      (split; [cbn; congruence|]); appended; cbn; intros c Hin;
      repeat (destruct Hin as [Hin|Hin]; simplify_eq); try contradiction;
      split; try discriminate; intros; discriminate.
  - intros [fd|p] w; run;
      repeat (case_match; cbn in *; simplify_eq; try done);
      try (eexists; split; [apply Hsnoc | reflexivity]);
      (split; [cbn; congruence|]); appended; cbn; intros c Hin;
      repeat (destruct Hin as [Hin|Hin]; simplify_eq); try contradiction;
      split; try discriminate; intros; discriminate.
Qed.

(** Unfolds an action without computing. *)
Ltac unfold_action :=
  unfold deletePoll, submitVote, updatePoll, createPoll, getUserPolls, getPollById, logout,
    login, register, validateToken, getCsrfToken, generateAndSetCsrfToken, randomHex32,
    timingSafeEqual, try_catch,
    auth_getUser, auth_signOut, auth_signInWithPassword, auth_signUp,
    polls_select_owner, polls_select_by_id, polls_select_by_user, polls_delete,
    polls_update, polls_insert, votes_select, votes_insert, revalidatePath,
    checkRateLimitM, db_fault, fail_with, succeed, bind, ret, throw, outside.

(** Unfolds an action and keeps the rate limiter folded. *)
Ltac run_to_limiter := unfold_action; cbn -[checkRateLimit].

(** Uses the known outcome [Hrun] of the rate limiter wherever it occurs. *)
Ltac limiter_says Hrun :=
  rewrite ?Hrun;
  repeat match goal with
         | H : checkRateLimit _ _ _ _ _ = _ |- _ =>
             tryif constr_eq H Hrun then fail else (rewrite Hrun in H)
         end.

Section Throttle.

Lemma own_login_key (e : string) : inherited ("login_" +:+ e) = false.
Proof. reflexivity. Qed.

Lemma own_create_key (u : string) : inherited ("create_poll_" +:+ u) = false.
Proof. reflexivity. Qed.

Lemma own_update_key (u : string) : inherited ("update_poll_" +:+ u) = false.
Proof. reflexivity. Qed.

(** A key at its limit in a live window: the call is counted and refused. *)
Lemma checkRateLimit_exhausted (now : Z) (key : string) (maxAttempts windowMs : Z)
    (rl : gmap string RateEntry) (e : RateEntry) :
  inherited key = false ->
  rl !! key = Some e -> maxAttempts <= count e -> now <= resetTime e ->
  checkRateLimit now key maxAttempts windowMs rl
  = (false, <[key := {| count := count e + 1; resetTime := resetTime e |}]> rl).
Proof.
  intros Hown Hk Hc Ht.
  rewrite (checkRateLimit_counts key maxAttempts windowMs Hown now rl e Hk Ht).
  f_equal. apply Z.leb_gt. lia.
Qed.

End Throttle.

(** X17. While the key of an email is at its limit in a live window, no
    [login] for that email, in any letter case, reaches the identity service,
    and a submission that is not stopped by the CSRF check gets the throttling
    error; the same holds for [register] and its one global key, whoever
    registers. *)
Theorem exhausted_budget_stops_authentication :
  (forall (formData : FormData + LoginFormData) (w : World) (e : string) (entry : RateEntry),
      login_email formData = Some e ->
      rateLimits w !! ("login_" +:+ Js.toLowerCase e) = Some entry ->
      5 <= count entry -> clock w <= resetTime entry ->
      existsb is_identity_call (new_calls w (snd (login formData w))) = false
      /\ (fst (login formData w) = rejected CSRF_REJECTED
          \/ fst (login formData w)
             = rejected "Too many login attempts. Please try again later."))
  /\ (forall (formData : FormData + RegisterFormData) (w : World) (entry : RateEntry),
        rateLimits w !! "register_global" = Some entry ->
        3 <= count entry -> clock w <= resetTime entry ->
        existsb is_identity_call (new_calls w (snd (register formData w))) = false
        /\ (fst (register formData w) = rejected CSRF_REJECTED
            \/ fst (register formData w)
               = rejected "Registration is temporarily unavailable. Please try again later.")).
Proof.
  split.
  - intros formData w e entry He Hk Hc Ht.
    pose proof (checkRateLimit_exhausted (clock w) _ 5 60000 _ entry
                  (own_login_key _) Hk Hc Ht) as Hrun.
    unfold rejected.
    destruct formData as [fd|p]; cbn in He; run_to_limiter;
      rewrite ?He; cbn -[checkRateLimit]; limiter_says Hrun;
      repeat (case_match; cbn -[checkRateLimit] in *; limiter_says Hrun; simplify_eq);
      split; try (now appended); auto.
  - intros formData w entry Hk Hc Ht.
    pose proof (checkRateLimit_exhausted (clock w) "register_global" 3 3600000 _ entry
                  eq_refl Hk Hc Ht) as Hrun.
    unfold rejected.
    destruct formData as [fd|p]; run_to_limiter; limiter_says Hrun;
      repeat (case_match; cbn -[checkRateLimit] in *; limiter_says Hrun; simplify_eq);
      split; try (now appended); auto.
Qed.

Lemma exhausted_budget_stops_authentication_witness :
  let w := set_rateLimits {["login_a@b.co" := {| count := 5; resetTime := 2000 |}]}
                          (world0 None) in
  existsb is_identity_call
    (new_calls w (snd (login (inr {| l_email := "A@B.co"; l_password := "pw" |}) w)))
  = false.
Proof.
  intros w. destruct exhausted_budget_stops_authentication as [H _].
  apply (H (inr {| l_email := "A@B.co"; l_password := "pw" |}) w "A@B.co"
           {| count := 5; resetTime := 2000 |} eq_refl).
  - apply lookup_singleton_eq.
  - cbn. lia.
  - cbn. lia.
Defined.

(** ** Poll actions, one by one *)

Section PollFacts.

Lemma sanitizeInput_empty_iff (v : option string) :
  sanitizeInput v = "" <-> Js.falsy v = true.
Proof.
  destruct v as [[|a s]|]; [cbn; tauto | | cbn; tauto].
  rewrite sanitizeInput_escape_each. split; [|discriminate].
  intros E. now apply escape_each_nonempty in E.
Qed.

Lemma length_sanitized_options (formData : FormData) :
  length (sanitized_options formData)
  = length (List.filter (fun o => negb (String.eqb o "")) (fd_getAll "options" formData)).
Proof. unfold sanitized_options. apply length_map. Qed.

(** The validation of the form, as [createPoll] and [updatePoll] compute it. *)
Lemma poll_form_check (formData : FormData) :
  String.eqb (sanitizeInput (fd_get "question" formData)) ""
  || (length (sanitized_options formData) <? 2)%nat
  = negb (poll_form_complete formData).
Proof.
  unfold poll_form_complete. rewrite negb_andb, negb_involutive, length_sanitized_options.
  f_equal.
  - apply eq_true_iff_eq. rewrite String.eqb_eq. apply sanitizeInput_empty_iff.
  - apply eq_true_iff_eq. rewrite negb_true_iff, Nat.ltb_lt, Nat.leb_gt. tauto.
Qed.

Lemma sanitized_options_markup_free (formData : FormData) :
  Forall (fun o => markup_free o = true) (sanitized_options formData).
Proof.
  unfold sanitized_options. apply Forall_map, Forall_forall. intros o _.
  apply sanitizeInput_no_markup.
Qed.

End PollFacts.

(** What [createPoll] does to [polls]. *)
Lemma createPoll_polls :
  forall (formData : FormData) (w : World),
    let after := snd (createPoll formData w) in
    (fst (createPoll formData w) = accepted ->
     exists user row,
       getUser_user (identity w) = Some user
       /\ polls after = (polls w ++ [row])%list
       /\ p_user_id row = u_id user
       /\ p_question row = sanitizeInput (fd_get "question" formData)
       /\ p_options row = sanitized_options formData
       /\ p_created_at row = clock w
       /\ poll_form_complete formData = true)
    /\ (fst (createPoll formData w) <> accepted -> polls after = polls w).
Proof.
  intros formData w after. subst after. unfold accepted.
  pose proof (poll_form_check formData) as Hform.
  unfold_action. rewrite Hform. cbn.
  repeat (case_match; cbn in *; simplify_eq);
    (split; [intros E; simplify_eq | intros E; try reflexivity; try (now contradiction E)]).
  all: eexists _, _; repeat split; try reflexivity.
  all: now apply negb_false_iff.
Qed.

(** X18. [createPoll] adds one row or none.  When it returns a null error
    the new row is the last one, is owned by the caller and holds the
    sanitized question and the sanitized non-empty options, two at least;
    on any other result [polls] is as before. *)
Theorem createPoll_appends_sanitized_row :
  forall (formData : FormData) (w : World),
    let after := snd (createPoll formData w) in
    (fst (createPoll formData w) = accepted ->
     exists user row,
       getUser_user (identity w) = Some user
       /\ polls after = (polls w ++ [row])%list
       /\ p_user_id row = u_id user
       /\ p_question row = sanitizeInput (fd_get "question" formData)
       /\ p_options row = sanitized_options formData
       /\ p_created_at row = clock w
       /\ poll_form_complete formData = true)
    /\ (fst (createPoll formData w) <> accepted -> polls after = polls w).
Proof.
  intros formData w after. subst after. unfold accepted.
  pose proof (poll_form_check formData) as Hform.
  unfold_action. rewrite Hform. cbn.
  repeat (case_match; cbn in *; simplify_eq);
    (split; [intros E; simplify_eq | intros E; try reflexivity; try (now contradiction E)]).
  all: eexists _, _; repeat split; try reflexivity.
  all: now apply negb_false_iff.
Qed.

Lemma createPoll_appends_sanitized_row_witness :
  let formData := [("question", "Tea or <coffee>?"); ("options", "tea"); ("options", "");
                   ("options", "coffee")] in
  exists user row,
    getUser_user (identity (world0 (Some alice))) = Some user
    /\ polls (snd (createPoll formData (world0 (Some alice)))) = ([] ++ [row])%list
    /\ p_user_id row = u_id user
    /\ p_question row = sanitizeInput (Some "Tea or <coffee>?")
    /\ p_options row = sanitized_options formData
    /\ p_created_at row = 1000
    /\ poll_form_complete formData = true.
Proof.
  intros formData.
  destruct (createPoll_appends_sanitized_row formData (world0 (Some alice))) as [H _].
  apply H. vm_compute. reflexivity.
Defined.

(** X19. A signed-in caller whose form lacks a question, or has fewer than
    two non-empty options, gets no call to the data service from
    [createPoll] or [updatePoll]: the result is the incomplete-form error,
    or the rate-limit error when the budget is spent, and the attempt has
    been counted by the rate limiter either way. *)
Theorem incomplete_poll_form_is_refused :
  forall (formData : FormData) (w : World) (user : User),
    getUser_user (identity w) = Some user ->
    getUser_error (identity w) = None ->
    poll_form_complete formData = false ->
    (let after := snd (createPoll formData w) in
     (fst (createPoll formData w) = rejected POLL_INCOMPLETE
      \/ fst (createPoll formData w) = rejected RATE_LIMITED)
     /\ existsb is_data_call (new_calls w after) = false
     /\ polls after = polls w
     /\ rateLimits after
        = snd (checkRateLimit (clock w) ("create_poll_" +:+ u_id user) 5 60000 (rateLimits w)))
    /\ (forall pollId,
          let after := snd (updatePoll pollId formData w) in
          (fst (updatePoll pollId formData w) = rejected POLL_INCOMPLETE
           \/ fst (updatePoll pollId formData w) = rejected RATE_LIMITED)
          /\ existsb is_data_call (new_calls w after) = false
          /\ polls after = polls w
          /\ rateLimits after
             = snd (checkRateLimit (clock w) ("update_poll_" +:+ u_id user) 10 60000
                                   (rateLimits w))).
Proof.
  intros formData w user Huser Herr Hform.
  pose proof (poll_form_check formData) as Hcheck. rewrite Hform in Hcheck.
  unfold rejected. split; [|intros pollId].
  all: unfold_action; rewrite Hcheck; cbn -[checkRateLimit]; rewrite Huser, Herr;
    cbn -[checkRateLimit].
  all: destruct (checkRateLimit _ _ _ _ _) as [[] table]; cbn;
    (split; [auto|]); (split; [now appended|]); split; reflexivity.
Qed.

Lemma incomplete_poll_form_is_refused_witness :
  fst (createPoll [("question", "Only one?"); ("options", "yes"); ("options", "")]
                  (world0 (Some alice)))
  = rejected POLL_INCOMPLETE.
Proof.
  destruct (incomplete_poll_form_is_refused
              [("question", "Only one?"); ("options", "yes"); ("options", "")]
              (world0 (Some alice)) alice eq_refl eq_refl eq_refl) as [(H & _) _].
  destruct H as [H|H]; [exact H|]. vm_compute in H. discriminate H.
Defined.

(** X20. While the budget of a caller is spent in a live window,
    [createPoll] and [updatePoll] return the rate-limit error and send
    nothing to the data service, whatever the form holds. *)
Theorem exhausted_budget_stops_writes :
  forall (w : World) (user : User),
    getUser_user (identity w) = Some user ->
    getUser_error (identity w) = None ->
    (forall formData entry,
        rateLimits w !! ("create_poll_" +:+ u_id user) = Some entry ->
        5 <= count entry -> clock w <= resetTime entry ->
        fst (createPoll formData w) = rejected RATE_LIMITED
        /\ existsb is_data_call (new_calls w (snd (createPoll formData w))) = false
        /\ polls (snd (createPoll formData w)) = polls w)
    /\ (forall pollId formData entry,
          rateLimits w !! ("update_poll_" +:+ u_id user) = Some entry ->
          10 <= count entry -> clock w <= resetTime entry ->
          fst (updatePoll pollId formData w) = rejected RATE_LIMITED
          /\ existsb is_data_call (new_calls w (snd (updatePoll pollId formData w))) = false
          /\ polls (snd (updatePoll pollId formData w)) = polls w).
Proof.
  intros w user Huser Herr. unfold rejected. split.
  - intros formData entry Hk Hc Ht.
    pose proof (checkRateLimit_exhausted (clock w) _ 5 60000 _ entry
                  (own_create_key _) Hk Hc Ht) as Hrun.
    run_to_limiter. rewrite Huser, Herr. cbn -[checkRateLimit]. rewrite Hrun. cbn.
    split; [reflexivity|]. split; [now appended | reflexivity].
  - intros pollId formData entry Hk Hc Ht.
    pose proof (checkRateLimit_exhausted (clock w) _ 10 60000 _ entry
                  (own_update_key _) Hk Hc Ht) as Hrun.
    run_to_limiter. rewrite Huser, Herr. cbn -[checkRateLimit]. rewrite Hrun. cbn.
    split; [reflexivity|]. split; [now appended | reflexivity].
Qed.

Lemma exhausted_budget_stops_writes_witness :
  let w := set_rateLimits {["create_poll_alice" := {| count := 5; resetTime := 2000 |}]}
                          (world0 (Some alice)) in
  fst (createPoll [("question", "q"); ("options", "a"); ("options", "b")] w)
  = rejected RATE_LIMITED.
Proof.
  intros w.
  destruct (exhausted_budget_stops_writes w alice eq_refl eq_refl) as [H _].
  apply (H _ {| count := 5; resetTime := 2000 |}).
  - apply lookup_singleton_eq.
  - cbn. lia.
  - cbn. lia.
Defined.

(** X21. Without a signed-in user, [createPoll], [updatePoll], [deletePoll],
    [submitVote] and [getUserPolls] return an error and send nothing to the
    data service; both tables and the rate-limit table are as before. *)
Theorem signed_out_callers_get_nothing :
  forall (a : Action) (w : World),
    requires_login a = true ->
    getUser_user (identity w) = None ->
    let after := snd (perform a w) in
    (exists message, fst (perform a w) = Returned (Some message))
    /\ new_calls w after = [Auth_getUser]
    /\ polls after = polls w
    /\ votes after = votes w
    /\ rateLimits after = rateLimits w.
Proof.
  intros a w Ha Hnone after. subst after.
  destruct a; try discriminate Ha; unfold perform; run; rewrite Hnone; cbn.
  all: destruct (getUser_error (identity w)); cbn.
  all: (split; [eauto|]); (split; [now appended|]); repeat split.
Qed.

Lemma signed_out_callers_get_nothing_witness :
  fst (perform (SubmitVote "p1" 0) (world0 None))
  = Returned (Some "You must be logged in to vote.").
Proof.
  destruct (signed_out_callers_get_nothing (SubmitVote "p1" 0) (world0 None) eq_refl eq_refl)
    as ((message & H) & _).
  rewrite H. vm_compute in H. symmetry. exact H.
Defined.

Section StoredPolls.

(** What each action can do to [polls]: nothing, one row appended with
    sanitized text, rows removed, or the text of rows replaced by sanitized
    text. *)
Lemma polls_after (a : Action) (w : World) :
  polls (snd (perform a w)) = polls w
  \/ (exists row, polls (snd (perform a w)) = (polls w ++ [row])%list
                  /\ markup_free (p_question row) = true
                  /\ Forall (fun o => markup_free o = true) (p_options row))
  \/ (exists keep, polls (snd (perform a w)) = List.filter keep (polls w))
  \/ (exists f, polls (snd (perform a w)) = map f (polls w)
                /\ forall p, f p = p
                             \/ (markup_free (p_question (f p)) = true
                                 /\ Forall (fun o => markup_free o = true) (p_options (f p)))).
Proof.
  destruct a as [fd|fd| |fd|pollId fd|id|pollId i| |id]; unfold perform.
  - left. run. repeat (case_match; cbn in *; simplify_eq; try reflexivity).
  - left. run. repeat (case_match; cbn in *; simplify_eq; try reflexivity).
  - left. run. repeat (case_match; cbn in *; simplify_eq; try reflexivity).
  - destruct (createPoll fd w) as [o w'] eqn:E. cbn.
    destruct (createPoll_polls fd w) as [Hok Hno].
    rewrite E in Hok, Hno. cbn in Hok, Hno.
    destruct o as [[[] [e|]]|ex]; try (left; apply Hno; discriminate).
    right. left. destruct (Hok eq_refl) as (user & row & _ & -> & _ & Hq & Ho & _).
    exists row. split; [reflexivity|]. rewrite Hq, Ho.
    split; [apply sanitizeInput_no_markup | apply sanitized_options_markup_free].
  - right. right. right. run.
    repeat (case_match; cbn in *; simplify_eq);
      try (exists (fun p => p); split; [now rewrite map_id | now left]).
    all: eexists; split; [reflexivity|]; intros p; cbn;
      destruct (has_id pollId p && owned_by _ p); [right | now left]; cbn;
      split; [apply sanitizeInput_no_markup | apply sanitized_options_markup_free].
  - run. repeat (case_match; cbn in *; simplify_eq; try (now left)).
    all: right; right; left; eexists; reflexivity.
  - left. run. repeat (case_match; cbn in *; simplify_eq; try reflexivity).
  - left. run. repeat (case_match; cbn in *; simplify_eq; try reflexivity).
  - left. run. repeat (case_match; cbn in *; simplify_eq; try reflexivity).
Qed.

End StoredPolls.

(** X22. Stored text stays free of markup: if no question and no option in
    [polls] holds an angle bracket or a quote, the same is true after any
    action, since [createPoll] and [updatePoll] store sanitized text only. *)
Theorem stored_polls_stay_markup_free :
  forall (a : Action) (w : World),
    polls_markup_free (polls w) -> polls_markup_free (polls (snd (perform a w))).
Proof.
  intros a w Hinv. unfold polls_markup_free in *.
  destruct (polls_after a w) as [-> | [(row & -> & Hq & Ho) | [(keep & ->) | (f & -> & Hf)]]].
  - exact Hinv.
  - apply Forall_app. split; [exact Hinv|]. constructor; [now split | constructor].
  - apply Forall_forall. intros p Hp. apply list_elem_of_In, filter_In in Hp as [Hp _].
    rewrite Forall_forall in Hinv. apply Hinv. now apply list_elem_of_In.
  - apply Forall_map. eapply Forall_impl; [exact Hinv|]. cbn. intros p Hp.
    destruct (Hf p) as [-> | H]; [exact Hp | exact H].
Qed.

Lemma stored_polls_stay_markup_free_witness :
  polls_markup_free
    (polls (snd (perform (CreatePoll [("question", "<b>?"); ("options", "a'"); ("options", "b")])
                         (world0 (Some alice))))).
Proof. apply stored_polls_stay_markup_free. constructor. Defined.

(** X23. [deletePoll] sends a delete only for the id it was given and only
    after the lookup returned the caller as the owner of the one poll with
    that id.  When it returns a null error the rows with that id are gone and
    the others remain, in order; on any other result [polls] is as before. *)
Theorem deletePoll_removes_own_poll_only :
  forall (id : string) (w : World),
    let after := snd (deletePoll id w) in
    (forall id', In (Polls_delete id') (new_calls w after) ->
        id' = id
        /\ exists user poll,
            getUser_user (identity w) = Some user
            /\ getUser_error (identity w) = None
            /\ List.filter (has_id id) (polls w) = [poll]
            /\ p_user_id poll = u_id user)
    /\ (fst (deletePoll id w) = accepted ->
        polls after = List.filter (fun p => negb (has_id id p)) (polls w))
    /\ (fst (deletePoll id w) <> accepted -> polls after = polls w).
Proof.
  intros id w after. subst after. unfold accepted. run.
  destruct (getUser_error (identity w)) as [ue|]; cbn.
  { split; [appended; intros id' [H|[]]; discriminate H|]. split; [discriminate | reflexivity]. }
  destruct (getUser_user (identity w)) as [user|]; cbn.
  2: { split; [appended; intros id' [H|[]]; discriminate H|].
       split; [discriminate | reflexivity]. }
  destruct (db_faults w) as [|[e|] faults] eqn:Hd; cbn.
  2: { split; [appended; intros id' [H|[H|[]]]; discriminate H|].
       split; [discriminate | reflexivity]. }
  all: destruct (List.filter (has_id id) (polls w)) as [|poll [|q rest]] eqn:Hf; cbn;
    try (split; [appended; intros id' [H|[H|[]]]; discriminate H|];
         split; [discriminate | reflexivity]).
  all: destruct (String.eqb (p_user_id poll) (u_id user)) eqn:Hown; cbn;
    try (split; [appended; intros id' [H|[H|[]]]; discriminate H|];
         split; [discriminate | reflexivity]).
  all: apply String.eqb_eq in Hown.
  - rewrite Hd. cbn. split.
    + appended. intros id' [H|[H|[H|[H|[]]]]]; try discriminate H.
      injection H as <-. split; [reflexivity|]. eauto 6.
    + split; [reflexivity | intros H; now contradiction H].
  - destruct faults as [|[e|] faults]; cbn.
    + split.
      * appended. intros id' [H|[H|[H|[H|[]]]]]; try discriminate H.
        injection H as <-. split; [reflexivity|]. eauto 6.
      * split; [reflexivity | intros H; now contradiction H].
    + split.
      * appended. intros id' [H|[H|[H|[]]]]; try discriminate H.
        injection H as <-. split; [reflexivity|]. eauto 6.
      * split; [discriminate | reflexivity].
    + split.
      * appended. intros id' [H|[H|[H|[H|[]]]]]; try discriminate H.
        injection H as <-. split; [reflexivity|]. eauto 6.
      * split; [reflexivity | intros H; now contradiction H].
Qed.

Lemma deletePoll_removes_own_poll_only_witness :
  let mine := {| p_id := "p1"; p_user_id := "alice"; p_question := "q";
                 p_options := ["a"; "b"]; p_created_at := 0 |} in
  let other := {| p_id := "p2"; p_user_id := "bob"; p_question := "r";
                  p_options := ["c"; "d"]; p_created_at := 1 |} in
  polls (snd (deletePoll "p1" (set_polls [mine; other] (world0 (Some alice))))) = [other].
Proof.
  intros mine other.
  destruct (deletePoll_removes_own_poll_only "p1" (set_polls [mine; other] (world0 (Some alice))))
    as (_ & H & _).
  apply H. vm_compute. reflexivity.
Defined.

(** X24. [updatePoll] never adds, removes or reorders rows and never changes
    an id, an owner or a creation time.  When it returns a null error the
    form was complete and the rows with the target id owned by the caller hold
    the sanitized question and options; on any other result [polls] is as
    before. *)
Theorem updatePoll_rewrites_text_only :
  forall (pollId : string) (formData : FormData) (w : World),
    let after := snd (updatePoll pollId formData w) in
    map (fun p => (p_id p, p_user_id p, p_created_at p)) (polls after)
    = map (fun p => (p_id p, p_user_id p, p_created_at p)) (polls w)
    /\ (fst (updatePoll pollId formData w) = accepted ->
        exists user,
          getUser_user (identity w) = Some user
          /\ poll_form_complete formData = true
          /\ polls after
             = map (fun p =>
                      if has_id pollId p && owned_by (u_id user) p
                      then {| p_id := p_id p; p_user_id := p_user_id p;
                              p_question := sanitizeInput (fd_get "question" formData);
                              p_options := sanitized_options formData;
                              p_created_at := p_created_at p |}
                      else p) (polls w))
    /\ (fst (updatePoll pollId formData w) <> accepted -> polls after = polls w).
Proof.
  intros pollId formData w after. subst after. unfold accepted.
  pose proof (poll_form_check formData) as Hform.
  unfold_action. rewrite Hform. cbn.
  destruct (getUser_error (identity w)); cbn;
    [split; [reflexivity|]; split; [discriminate | reflexivity]|].
  destruct (getUser_user (identity w)) as [user|]; cbn;
    [|split; [reflexivity|]; split; [discriminate | reflexivity]].
  destruct (checkRateLimit _ _ _ _ _) as [[] table]; cbn;
    [|split; [reflexivity|]; split; [discriminate | reflexivity]].
  destruct (poll_form_complete formData); cbn;
    [|split; [reflexivity|]; split; [discriminate | reflexivity]].
  destruct (db_faults w) as [|[e|] faults]; cbn;
    try (split; [reflexivity|]; split; [discriminate | reflexivity]).
  all: split; [rewrite map_map; apply map_ext; intros p; now destruct (_ && _)|].
  all: split; [intros _; exists user; auto | intros H; now contradiction H].
Qed.

Lemma updatePoll_rewrites_text_only_witness :
  let mine := {| p_id := "p1"; p_user_id := "alice"; p_question := "q";
                 p_options := ["a"; "b"]; p_created_at := 0 |} in
  let w := set_polls [mine] (world0 (Some alice)) in
  let formData := [("question", "new <q>"); ("options", "x"); ("options", "y")] in
  exists user,
    getUser_user (identity w) = Some user
    /\ poll_form_complete formData = true
    /\ polls (snd (updatePoll "p1" formData w))
       = map (fun p =>
                if has_id "p1" p && owned_by (u_id user) p
                then {| p_id := p_id p; p_user_id := p_user_id p;
                        p_question := sanitizeInput (fd_get "question" formData);
                        p_options := sanitized_options formData;
                        p_created_at := p_created_at p |}
                else p) (polls w).
Proof.
  intros mine w formData.
  destruct (updatePoll_rewrites_text_only "p1" formData w) as (_ & H & _).
  apply H. vm_compute. reflexivity.
Defined.

(** X25. [updatePoll] does not say when nothing matched: for a signed-in
    caller within budget, with a complete form and an answering data service,
    it returns a null error and leaves [polls] unchanged when no row has both
    the target id and the caller as owner, be the poll another user's or
    missing. *)
Theorem updatePoll_reports_success_without_a_match :
  forall (pollId : string) (formData : FormData) (w : World) (user : User),
    getUser_user (identity w) = Some user ->
    getUser_error (identity w) = None ->
    fst (checkRateLimit (clock w) ("update_poll_" +:+ u_id user) 10 60000 (rateLimits w))
    = true ->
    poll_form_complete formData = true ->
    answers 1 w ->
    (forall p, In p (polls w) -> ~ (p_id p = pollId /\ p_user_id p = u_id user)) ->
    fst (updatePoll pollId formData w) = accepted
    /\ polls (snd (updatePoll pollId formData w)) = polls w.
Proof.
  intros pollId formData w user Huser Herr Hrate Hform Hans Hnone. unfold accepted, answers in *.
  pose proof (poll_form_check formData) as Hcheck. rewrite Hform in Hcheck.
  unfold_action. rewrite Hcheck. cbn -[checkRateLimit]. rewrite Huser, Herr.
  cbn -[checkRateLimit].
  destruct (checkRateLimit _ _ _ _ _) as [ok table]. cbn in Hrate. subst ok. cbn.
  assert (forall q o, map (fun p => if has_id pollId p && owned_by (u_id user) p
                                    then {| p_id := p_id p; p_user_id := p_user_id p;
                                            p_question := q; p_options := o;
                                            p_created_at := p_created_at p |}
                                    else p) (polls w) = polls w) as Hsame.
  { intros q o. rewrite <- (map_id (polls w)) at 2. apply map_ext_in. intros p Hp.
    destruct (has_id pollId p && owned_by (u_id user) p) eqn:E; [|reflexivity].
    apply andb_true_iff in E as [E1 E2]. unfold has_id, owned_by in *.
    apply String.eqb_eq in E1, E2. exfalso. apply (Hnone p Hp). auto. }
  destruct (db_faults w) as [|f faults]; cbn in *.
  - now rewrite Hsame.
  - apply Forall_cons in Hans as [-> _]. cbn. now rewrite Hsame.
Qed.

Lemma updatePoll_reports_success_without_a_match_witness :
  let bobs := {| p_id := "p1"; p_user_id := "bob"; p_question := "q";
                 p_options := ["a"; "b"]; p_created_at := 0 |} in
  let w := set_polls [bobs] (world0 (Some alice)) in
  fst (updatePoll "p1" [("question", "mine"); ("options", "x"); ("options", "y")] w)
  = accepted.
Proof.
  intros bobs w.
  apply (updatePoll_reports_success_without_a_match "p1" _ w alice eq_refl eq_refl).
  - reflexivity.
  - reflexivity.
  - constructor.
  - intros p [<-|[]] [_ H]. discriminate H.
Defined.

Section Sorting.

Lemma insert_desc_perm (p : Poll) (l : list Poll) : Permutation (insert_desc p l) (p :: l).
Proof.
  induction l as [|q l IH]; cbn; [reflexivity|].
  destruct (p_created_at q <? p_created_at p); [reflexivity|].
  rewrite IH. apply perm_swap.
Qed.

Lemma order_created_at_desc_perm (l : list Poll) : Permutation (order_created_at_desc l) l.
Proof.
  unfold order_created_at_desc. induction l as [|p l IH]; cbn; [reflexivity|].
  now rewrite insert_desc_perm, IH.
Qed.

Lemma insert_desc_sorted (p : Poll) (l : list Poll) :
  newest_first l -> newest_first (insert_desc p l).
Proof.
  induction l as [|q l IH]; cbn; [intros _; split; [constructor | exact I]|].
  intros [Hq Hl]. destruct (p_created_at q <? p_created_at p) eqn:E.
  - apply Z.ltb_lt in E. split; [|split; assumption].
    constructor; [lia|]. eapply Forall_impl; [exact Hq|]. cbn. intros r Hr. lia.
  - apply Z.ltb_ge in E. split; [|now apply IH].
    rewrite insert_desc_perm. constructor; [exact E | exact Hq].
Qed.

Lemma order_created_at_desc_sorted (l : list Poll) : newest_first (order_created_at_desc l).
Proof.
  unfold order_created_at_desc. induction l as [|p l IH]; cbn; [exact I|].
  now apply insert_desc_sorted.
Qed.

End Sorting.

(** X26. [getUserPolls] reads and never writes.  It returns rows in order of
    creation, newest first, each of them stored and owned by the caller; and
    when the data service answers it returns every poll of the caller. *)
Theorem getUserPolls_lists_own_polls_newest_first :
  forall (w : World),
    let after := snd (getUserPolls w) in
    exists r,
      fst (getUserPolls w) = Returned r
      /\ polls after = polls w /\ votes after = votes w
      /\ newest_first (data r)
      /\ (forall p, In p (data r) ->
            In p (polls w)
            /\ exists user, getUser_user (identity w) = Some user /\ p_user_id p = u_id user)
      /\ (forall user, getUser_user (identity w) = Some user -> answers 1 w ->
            error r = None
            /\ Permutation (data r) (List.filter (owned_by (u_id user)) (polls w))).
Proof.
  intros w after. subst after. unfold answers. run.
  destruct (getUser_user (identity w)) as [user|]; cbn.
  2: { eexists. split; [reflexivity|]. cbn.
       split; [reflexivity|]. split; [reflexivity|]. split; [exact I|].
       split; [intros p []|]. intros user Hu. discriminate Hu. }
  assert (forall p, In p (order_created_at_desc (List.filter (owned_by (u_id user)) (polls w))) ->
                    In p (polls w) /\ exists user0, Some user = Some user0
                                                    /\ p_user_id p = u_id user0) as Hin.
  { intros p Hp.
    apply list_elem_of_In in Hp. rewrite order_created_at_desc_perm in Hp.
    apply list_elem_of_In, filter_In in Hp as [Hp Ho].
    split; [exact Hp|]. exists user. split; [reflexivity|]. now apply String.eqb_eq in Ho. }
  assert (forall user0, Some user = Some user0 ->
                        Permutation
                          (order_created_at_desc (List.filter (owned_by (u_id user)) (polls w)))
                          (List.filter (owned_by (u_id user0)) (polls w))) as Hall.
  { intros user0 [= <-]. apply order_created_at_desc_perm. }
  destruct (db_faults w) as [|[e|] faults]; cbn.
  - eexists. split; [reflexivity|]. cbn.
    split; [reflexivity|]. split; [reflexivity|].
    split; [apply order_created_at_desc_sorted|]. split; [exact Hin|].
    intros user0 Hu _. split; [reflexivity | now apply Hall].
  - eexists. split; [reflexivity|]. cbn.
    split; [reflexivity|]. split; [reflexivity|]. split; [exact I|].
    split; [intros p []|]. intros user0 _ Hans.
    apply Forall_cons in Hans as [Hans _]. discriminate Hans.
  - eexists. split; [reflexivity|]. cbn.
    split; [reflexivity|]. split; [reflexivity|].
    split; [apply order_created_at_desc_sorted|]. split; [exact Hin|].
    intros user0 Hu _. split; [reflexivity | now apply Hall].
Qed.

Lemma getUserPolls_lists_own_polls_newest_first_witness :
  let old := {| p_id := "p1"; p_user_id := "alice"; p_question := "q";
                p_options := ["a"; "b"]; p_created_at := 1 |} in
  let new := {| p_id := "p2"; p_user_id := "alice"; p_question := "r";
                p_options := ["c"; "d"]; p_created_at := 2 |} in
  let w := set_polls [old; new] (world0 (Some alice)) in
  exists r,
    fst (getUserPolls w) = Returned r
    /\ newest_first (data r)
    /\ Permutation (data r) [old; new].
Proof.
  intros old new w.
  destruct (getUserPolls_lists_own_polls_newest_first w) as (r & Hr & _ & _ & Hs & _ & H).
  exists r. split; [exact Hr|]. split; [exact Hs|].
  apply (H alice eq_refl). constructor.
Defined.

Section ReadById.

(** What [getPollById] does, case by case. *)
Lemma getPollById_run (id : string) (w : World) :
  getPollById id w
  = let logged := set_calls (calls w ++ [Polls_select_by_id id]) w in
    let found :=
      match List.filter (has_id id) (polls w) with
      | [p] => Returned {| data := Some p; error := None |}
      | _ => Returned {| data := None; error := Some PGRST116 |}
      end in
    match db_faults w with
    | [] => (found, logged)
    | Some e :: rest =>
        (Returned {| data := None; error := Some e |}, set_db_faults rest logged)
    | None :: rest => (found, set_db_faults rest logged)
    end.
Proof.
  run. destruct (db_faults w) as [|[e|] faults]; cbn; try reflexivity.
  - destruct (List.filter (has_id id) (polls w)) as [|p [|q l]]; reflexivity.
  - destruct (List.filter (has_id id) (polls w)) as [|p [|q l]]; reflexivity.
Qed.

End ReadById.

(** X27. [getPollById] asks the data service only: the identity service is
    not consulted, so any caller, signed in or not, gets the poll.  It returns
    a poll exactly when one row has the id and the data service answers, and
    it changes nothing. *)
Theorem getPollById_is_open_to_all :
  forall (id : string) (w : World),
    let after := snd (getPollById id w) in
    exists r,
      fst (getPollById id w) = Returned r
      /\ new_calls w after = [Polls_select_by_id id]
      /\ polls after = polls w /\ votes after = votes w
      /\ (forall p, data r = Some p ->
            error r = None /\ List.filter (has_id id) (polls w) = [p])
      /\ (forall p, answers 1 w -> List.filter (has_id id) (polls w) = [p] ->
            r = {| data := Some p; error := None |}).
Proof.
  intros id w after. subst after. unfold answers. rewrite getPollById_run.
  destruct (db_faults w) as [|[e|] faults]; cbn.
  - destruct (List.filter (has_id id) (polls w)) as [|p [|q l]];
      eexists; (split; [reflexivity|]); (split; [now appended|]); cbn;
      (split; [reflexivity|]); (split; [reflexivity|]);
      split; try discriminate; try (intros p' [= <-]; now split);
      try (intros p' _ [= <-]; reflexivity); intros; discriminate.
  - eexists. split; [reflexivity|]. split; [now appended|]. cbn.
    split; [reflexivity|]. split; [reflexivity|]. split; [discriminate|].
    intros p Hans. apply Forall_cons in Hans as [Hans _]. discriminate Hans.
  - destruct (List.filter (has_id id) (polls w)) as [|p [|q l]];
      eexists; (split; [reflexivity|]); (split; [now appended|]); cbn;
      (split; [reflexivity|]); (split; [reflexivity|]);
      split; try discriminate; try (intros p' [= <-]; now split);
      try (intros p' _ [= <-]; reflexivity); intros; discriminate.
Qed.

Lemma getPollById_is_open_to_all_witness :
  let bobs := {| p_id := "p1"; p_user_id := "bob"; p_question := "q";
                 p_options := ["a"; "b"]; p_created_at := 0 |} in
  fst (getPollById "p1" (set_polls [bobs] (world0 None)))
  = Returned {| data := Some bobs; error := None |}.
Proof.
  intros bobs.
  destruct (getPollById_is_open_to_all "p1" (set_polls [bobs] (world0 None)))
    as (r & Hr & _ & _ & _ & _ & H).
  rewrite Hr. f_equal. apply H; [constructor | reflexivity].
Defined.

(** X28. The edit page shows the form to the owner only.  Call a poll
    found when the lookup is answered and exactly one row has the id.  The
    page is the form of a poll exactly when that poll is found and the
    signed-in user is its owner; it is a redirect exactly when the target is
    [/polls] and a poll is found whose owner the reader is not, signed out or
    not; and it is not found exactly when no poll is found, which covers a
    failed lookup.  The page changes nothing. *)
Theorem EditPollPage_is_for_the_owner :
  forall (id : string) (w : World),
    let after := snd (EditPollPage id w) in
    let found (poll : Poll) : Prop :=
      answers 1 w /\ List.filter (has_id id) (polls w) = [poll] in
    let owner (poll : Poll) : Prop :=
      exists user, getUser_user (identity w) = Some user /\ p_user_id poll = u_id user in
    exists page,
      fst (EditPollPage id w) = Returned page
      /\ polls after = polls w /\ votes after = votes w
      /\ (forall poll, page = EditPollForm poll <-> found poll /\ owner poll)
      /\ (forall path,
             page = RedirectedTo path
             <-> path = "/polls" /\ exists poll, found poll /\ ~ owner poll)
      /\ (page = NotFound <-> ~ exists poll, found poll).
Proof.
  intros id w after found owner. subst after found owner. unfold EditPollPage, bind.
  rewrite getPollById_run.
  assert (answers 1 w <-> match db_faults w with Some _ :: _ => False | _ => True end)
    as Hans.
  { unfold answers. destruct (db_faults w) as [|[e|] l]; cbn; split; auto;
      try (intros H; apply Forall_cons in H as [H _]; discriminate H);
      try (intros []); repeat constructor. }
  revert Hans. generalize (answers 1 w). intros A Hans.
  destruct (db_faults w) as [|[e|] faults]; cbn in Hans;
    destruct (List.filter (has_id id) (polls w)) as [|p [|q l]]; cbn;
    unfold auth_getUser, bind, outside, ret; cbn;
    try (destruct (getUser_user (identity w)) as [user|]; cbn);
    try (destruct (String.eqb (p_user_id p) (u_id user)) eqn:E; cbn;
         [apply String.eqb_eq in E | apply String.eqb_neq in E]);
    (eexists; split; [reflexivity|]; split; [reflexivity|]; split; [reflexivity|]);
    (split; [|split];
    [ intros poll; split; [intros [= <-] | intros [[Ha [= <-]] (u & [= <-] & Ho)]]
    | intros path; split; [intros [= <-] | intros (-> & poll & [Ha [= <-]] & Ho)]
    | split; [intros [=] | intros Hnone] ]);
    try reflexivity; try tauto; try congruence;
    try (intros (poll & Ha & Hl); (discriminate Hl || tauto));
    try (split; [split; [tauto | reflexivity] | eauto]);
    try (split; [reflexivity|]; exists p; split; [split; [tauto | reflexivity]|];
         intros (u & [= <-] & Ho); congruence);
    try (split; [reflexivity|]; exists p; split; [split; [tauto | reflexivity]|];
         intros (u & [=] & _));
    try (exfalso; apply Ho; eauto);
    try (exfalso; apply Hnone; exists p; split; [tauto | reflexivity]).
Qed.

Lemma EditPollPage_is_for_the_owner_witness :
  let bobs := {| p_id := "p1"; p_user_id := "bob"; p_question := "q";
                 p_options := ["a"; "b"]; p_created_at := 0 |} in
  let w := set_polls [bobs] (world0 (Some alice)) in
  fst (EditPollPage "p1" w) = Returned (RedirectedTo "/polls")
  /\ fst (EditPollPage "p1" (set_db_faults [Some "timeout"] w)) = Returned NotFound.
Proof.
  intros bobs w. split.
  - destruct (EditPollPage_is_for_the_owner "p1" w) as (page & -> & _ & _ & _ & H & _).
    f_equal. apply H. split; [reflexivity|]. exists bobs. split.
    + split; [constructor | reflexivity].
    + intros (user & [= <-] & Hown). discriminate Hown.
  - destruct (EditPollPage_is_for_the_owner "p1" (set_db_faults [Some "timeout"] w))
      as (page & -> & _ & _ & _ & _ & H).
    f_equal. apply H. intros (poll & Hans & _).
    unfold answers in Hans. cbn in Hans. apply Forall_cons in Hans as [Hans _]. discriminate Hans.
Defined.

(** ** The registration page *)

(** X29. The label shown for a password agrees with the verdict: it is
    [strong] exactly when the password is valid, and empty exactly for the
    empty password; a valid password has eight characters or more and holds
    an upper-case letter, a lower-case letter, a digit and a special
    character; [medium] is given to invalid passwords only. *)
Theorem validatePassword_label_matches_verdict :
  forall (password : string),
    let isValid := fst (validatePassword password) in
    let strength := snd (validatePassword password) in
    (isValid = true <-> strength = "strong")
    /\ (strength = "" <-> password = "")
    /\ (isValid = true ->
        (8 <= String.length password)%nat
        /\ some_unit is_upper password = true
        /\ some_unit is_lower password = true
        /\ some_unit is_digit password = true
        /\ some_unit is_special password = true)
    /\ (strength = "medium" ->
        isValid = false /\ (6 <= String.length password)%nat
        /\ some_unit is_digit password = true).
Proof.
  intros password isValid strength. subst isValid strength.
  unfold validatePassword. cbn [fst snd].
  destruct (8 <=? String.length password)%nat eqn:E8;
    destruct (String.length password =? 0)%nat eqn:E0;
    destruct (6 <=? String.length password)%nat eqn:E6;
    destruct (some_unit is_upper password), (some_unit is_lower password),
      (some_unit is_digit password), (some_unit is_special password); cbn.
  all: rewrite ?Nat.leb_le, ?Nat.leb_gt, ?Nat.eqb_eq, ?Nat.eqb_neq in *.
  all: assert (password = "" <-> String.length password = 0%nat) as Hlen
      by (destruct password; cbn; split; intros; (discriminate || reflexivity || lia)).
  all: repeat split; try discriminate; try tauto; try lia; intros;
    try (exfalso; lia); try (apply Hlen; lia); try (apply Hlen in H; lia).
Qed.

Lemma validatePassword_label_matches_verdict_witness :
  snd (validatePassword "Abcdef1!") = "strong" /\ (8 <= String.length "Abcdef1!")%nat.
Proof.
  destruct (validatePassword_label_matches_verdict "Abcdef1!") as (H1 & _ & H3 & _).
  split; [now apply H1 | now apply H3].
Defined.

(** X30. [handleSubmit] calls nothing outside the page unless the form has
    a password, the confirmation is the same string and the password is
    valid; any password that reaches the identity service is that password;
    and the browser is sent on, to [/polls], only when [register] returned a
    null error. *)
Theorem handleSubmit_checks_before_registering :
  forall (form : FormData) (csrfToken : string) (w : World),
    let after := snd (handleSubmit form csrfToken w) in
    let formData :=
      if negb (String.eqb csrfToken "")
      then (form ++ [("csrf_token", csrfToken)])%list else form in
    (new_calls w after <> [] ->
     exists pw, fd_get "password" form = Some pw
                /\ fd_get "confirmPassword" form = Some pw
                /\ fst (validatePassword pw) = true)
    /\ (forall href, fst (handleSubmit form csrfToken w) = Returned (GoTo href) ->
          href = "/polls" /\ fst (register (inl formData) w) = accepted).
Proof.
  intros form csrfToken w after formData. subst after.
  unfold handleSubmit. fold formData.
  destruct (bool_decide (fd_get "password" form = fd_get "confirmPassword" form)) eqn:Hsame;
    cbn [negb].
  2: { split; [appended; intros H; now contradiction H | discriminate]. }
  apply bool_decide_eq_true in Hsame.
  destruct (fd_get "password" form) as [pw|] eqn:Hpw.
  2: { split; [appended; intros H; now contradiction H | discriminate]. }
  destruct (fst (validatePassword pw)) eqn:Hvalid; cbn [negb].
  2: { split; [appended; intros H; now contradiction H | discriminate]. }
  split; [intros _; exists pw; auto|].
  intros href. unfold bind.
  assert (exists r, fst (register (inl formData) w) = Returned r
                    /\ (Js.falsy (error r) = true -> error r = None)) as (r & Hr & Hnull).
  { clear. generalize formData. clear formData. intros fd. run.
    repeat (case_match; cbn in *; simplify_eq).
    all: eexists; split; [reflexivity|]; cbn; intros Hfalsy; try reflexivity;
      discriminate Hfalsy. }
  destruct (register (inl formData) w) as [o w']. cbn in Hr. subst o.
  destruct (Js.falsy (error r)) eqn:Hf; cbn; [|discriminate].
  intros [= <-]. split; [reflexivity|]. cbn. unfold accepted.
  destruct r as [[] e]. cbn in *. now rewrite (Hnull eq_refl).
Qed.

Lemma handleSubmit_checks_before_registering_witness :
  let form := [("name", "Al"); ("email", "a@b.co"); ("password", "Abcdef1!");
               ("confirmPassword", "Abcdef1!")] in
  exists pw, fd_get "password" form = Some pw
             /\ fd_get "confirmPassword" form = Some pw
             /\ fst (validatePassword pw) = true.
Proof.
  intros form.
  destruct (handleSubmit_checks_before_registering form "" (world0 None)) as [H _].
  apply H. vm_compute. discriminate.
Defined.
